(** * LeadPilot: lead discovery and contact enrichment (src/server.js)

    A shallow embedding of the contact miner ([extractFromPage]), the
    website enrichment orchestrator ([extractContactInfoFromWebsite]),
    the discovery and per-listing loops of [scrapeGoogleMaps] and the
    job state machine behind [POST /api/scrape], with the properties
    the specification states about them; then the candidate pages of
    [findInternalPages], the fields read from a listing and the
    endpoints over the exports, with further properties of the code.

    JavaScript strings are modelled as [string] (code units below 256);
    every pattern of the program is ASCII-only, so a code unit above
    127 never matches a class or a literal. *)

From Stdlib Require Import String Ascii List Bool Arith ZArith Lia.
From Stdlib Require Import Permutation Sorted.
Import ListNotations.
Open Scope string_scope.
Open Scope list_scope.

(* ================================================================== *)
(** * JavaScript string primitives *)
(* ================================================================== *)

Module JS.

(** [String.prototype.startsWith]. *)
Definition startsWith (s p : string) : bool := String.prefix p s.

(** [String.prototype.includes]: [p] occurs in [s] at some position. *)
Fixpoint includes (s p : string) : bool :=
  String.prefix p s ||
  match s with
  | EmptyString => false
  | String _ s' => includes s' p
  end.

(** [String.prototype.endsWith]: some suffix of [s] is exactly [p]. *)
Fixpoint endsWith (s p : string) : bool :=
  String.eqb s p ||
  match s with
  | EmptyString => false
  | String _ s' => endsWith s' p
  end.

Definition is_upper (c : ascii) : bool :=
  let n := nat_of_ascii c in ((65 <=? n) && (n <=? 90))%nat.

Definition is_lower (c : ascii) : bool :=
  let n := nat_of_ascii c in ((97 <=? n) && (n <=? 122))%nat.

Definition lower_char (c : ascii) : ascii :=
  if is_upper c then ascii_of_nat (nat_of_ascii c + 32) else c.

Definition upper_char (c : ascii) : ascii :=
  if is_lower c then ascii_of_nat (nat_of_ascii c - 32) else c.

(** [String.prototype.toLowerCase] on the ASCII letters. *)
Fixpoint toLowerCase (s : string) : string :=
  match s with
  | EmptyString => EmptyString
  | String c s' => String (lower_char c) (toLowerCase s')
  end.

(** [Array.prototype.join]. *)
Definition join (sep : string) (l : list string) : string :=
  String.concat sep l.

(** Insertion into a [Set]: an element already present is ignored,
    a new one is appended (a [Set] iterates in insertion order). *)
Definition set_add (acc : list string) (x : string) : list string :=
  if existsb (String.eqb x) acc then acc else acc ++ [x].

(** [[...new Set(l)]]: the distinct elements of [l], each at the place
    of its first occurrence, compared with SameValueZero (for strings,
    exact equality of code units). *)
Definition new_Set (l : list string) : list string :=
  fold_left set_add l [].

End JS.

(* ================================================================== *)
(** * Regular expressions with the [gi] flags *)
(* ================================================================== *)

Module RegExp.

(** The fragment of the pattern language the program uses. *)
Inductive regex : Type :=
| Eps                                  (* the empty pattern *)
| Chr (c : ascii)                      (* a literal character *)
| Cls (items : list (ascii * ascii))   (* a class, as a list of ranges *)
| Seq (r1 r2 : regex)                  (* r1 r2 *)
| Opt (r : regex)                      (* (?:r)?  greedy *)
| Star (r : regex).                    (* r*      greedy *)

(** [r+] and [r{2,}]. *)
Definition Plus (r : regex) : regex := Seq r (Star r).
Definition AtLeast2 (r : regex) : regex := Seq r (Seq r (Star r)).

(** A literal word, character by character. *)
Fixpoint Lit (w : string) : regex :=
  match w with
  | EmptyString => Eps
  | String c w' => Seq (Chr c) (Lit w')
  end.

(** The terms of a pattern written one after the other. *)
Fixpoint Cat (rs : list regex) : regex :=
  match rs with
  | [] => Eps
  | r :: rs' => Seq r (Cat rs')
  end.

Definition one (c : ascii) : ascii * ascii := (c, c).

Definition in_range (x : ascii) (rg : ascii * ascii) : bool :=
  ((nat_of_ascii (fst rg) <=? nat_of_ascii x) &&
   (nat_of_ascii x <=? nat_of_ascii (snd rg)))%nat.

(** Canonicalize of the specification of the language, flag [i]
    without [u]: the upper-case form. *)
Definition canon (c : ascii) : ascii := JS.upper_char c.

(** Under [i] a character matches a literal when both canonicalize to
    the same character. *)
Definition chr_match (c x : ascii) : bool :=
  Ascii.eqb (canon x) (canon c).

(** Under [i] a character matches a class when some member of the class
    canonicalizes to the same character: the character itself or its
    other-case form is in one of the ranges. *)
Definition cls_match (items : list (ascii * ascii)) (x : ascii) : bool :=
  existsb (in_range x) items ||
  existsb (in_range (JS.upper_char x)) items ||
  existsb (in_range (JS.lower_char x)) items.

(** One match is the pair of the text matched and the text left. *)
Definition result : Type := string * string.

Definition extend (m1 : string) (rs : list result) : list result :=
  map (fun ms => ((m1 ++ fst ms)%string, snd ms)) rs.

(** Greedy iteration: every way of matching [step] repeatedly from [s],
    longer first, an iteration that consumes nothing being refused.
    [n] bounds the number of iterations and is taken as the length of
    [s], which no run of consuming iterations exceeds. *)
Fixpoint star_ends (step : string -> list result) (n : nat) (s : string)
  : list result :=
  match n with
  | O => [("", s)]
  | S n' =>
      flat_map
        (fun ms =>
           if (String.length (snd ms) <? String.length s)%nat
           then extend (fst ms) (star_ends step n' (snd ms))
           else [])
        (step s)
      ++ [("", s)]
  end.

(** Every way in which [r] matches a prefix of [s], in the order a
    backtracking matcher tries them. *)
Fixpoint ends (r : regex) (s : string) : list result :=
  match r with
  | Eps => [("", s)]
  | Chr c =>
      match s with
      | String x s' => if chr_match c x then [(String x "", s')] else []
      | EmptyString => []
      end
  | Cls items =>
      match s with
      | String x s' => if cls_match items x then [(String x "", s')] else []
      | EmptyString => []
      end
  | Seq r1 r2 =>
      flat_map (fun ms => extend (fst ms) (ends r2 (snd ms))) (ends r1 s)
  | Opt r1 => ends r1 s ++ [("", s)]
  | Star r1 => star_ends (ends r1) (String.length s) s
  end.

(** The match of [r] at the start of [s], if there is one. *)
Definition exec (r : regex) (s : string) : option string :=
  match ends r s with
  | [] => None
  | ms :: _ => Some (fst ms)
  end.

(** [s.match(/r/gi) || []]: the successive leftmost matches.  [skip]
    counts the characters of the last match still to be passed over;
    after an empty match the search resumes one character further. *)
Fixpoint match_from (r : regex) (skip : nat) (s : string) : list string :=
  match s with
  | EmptyString =>
      match skip, exec r "" with
      | O, Some m => [m]
      | _, _ => []
      end
  | String _ s' =>
      match skip with
      | S k => match_from r k s'
      | O =>
          match exec r s with
          | Some m => m :: match_from r (Nat.pred (String.length m)) s'
          | None => match_from r 0 s'
          end
      end
  end.

Definition match_all (r : regex) (s : string) : list string :=
  match_from r 0 s.

(** [s.replace(/r/gi, rep)] for a replacement text without [$]. *)
Fixpoint replace_from (r : regex) (rep : string) (skip : nat) (s : string)
  : string :=
  match s with
  | EmptyString =>
      match skip, exec r "" with
      | O, Some _ => rep
      | _, _ => ""
      end
  | String c s' =>
      match skip with
      | S k => replace_from r rep k s'
      | O =>
          match exec r s with
          | Some m =>
              match String.length m with
              | O => (rep ++ String c (replace_from r rep 0 s'))%string
              | S k => (rep ++ replace_from r rep k s')%string
              end
          | None => String c (replace_from r rep 0 s')
          end
      end
  end.

Definition replace_all (r : regex) (rep : string) (s : string) : string :=
  replace_from r rep 0 s.

(** The texts a pattern denotes, independently of the order in which a
    matcher finds them. *)
Inductive matches : regex -> string -> Prop :=
| M_eps : matches Eps ""
| M_chr (c x : ascii) :
    chr_match c x = true -> matches (Chr c) (String x "")
| M_cls (items : list (ascii * ascii)) (x : ascii) :
    cls_match items x = true -> matches (Cls items) (String x "")
| M_seq (r1 r2 : regex) (m1 m2 : string) :
    matches r1 m1 -> matches r2 m2 -> matches (Seq r1 r2) (m1 ++ m2)%string
| M_opt_none (r : regex) : matches (Opt r) ""
| M_opt_some (r : regex) (m : string) : matches r m -> matches (Opt r) m
| M_star_nil (r : regex) : matches (Star r) ""
| M_star_cons (r : regex) (m1 m2 : string) :
    matches r m1 -> matches (Star r) m2 -> matches (Star r) (m1 ++ m2)%string.

End RegExp.

(* ================================================================== *)
(** * The contact miner: the pure part of [extractFromPage] *)
(* ================================================================== *)

Module Miner.
Import JS RegExp.

(** The bundle [{ emails, facebook, instagram }]. *)
Record ContactBundle : Type := mkBundle {
  emails : list string;
  facebook : list string;
  instagram : list string
}.

Definition empty_bundle : ContactBundle := mkBundle [] [] [].

(** [[a-zA-Z0-9._%+-]] *)
Definition local_class : regex :=
  Cls [("a", "z"); ("A", "Z"); ("0", "9");
       one "."; one "_"; one "%"; one "+"; one "-"]%char.

(** [[a-zA-Z0-9.-]] *)
Definition domain_class : regex :=
  Cls [("a", "z"); ("A", "Z"); ("0", "9"); one "."; one "-"]%char.

(** [[a-zA-Z]] *)
Definition alpha_class : regex := Cls [("a", "z"); ("A", "Z")]%char.

(** [[a-zA-Z0-9._]] *)
Definition handle_class : regex :=
  Cls [("a", "z"); ("A", "Z"); ("0", "9"); one "."; one "_"]%char.

(** [\s] on code units below 256: TAB, LF, VT, FF, CR, space and the
    no-break space. *)
Definition space_class : regex :=
  Cls [(ascii_of_nat 9, ascii_of_nat 13); one " "%char;
       one (ascii_of_nat 160)].

Definition spaces : regex := Star space_class.

(** [/[a-zA-Z0-9._%+-]+@[a-zA-Z0-9.-]+\.[a-zA-Z]{2,}/gi] *)
Definition email_re : regex :=
  Cat [Plus local_class; Chr "@"; Plus domain_class; Chr ".";
       AtLeast2 alpha_class].

(** [/\s*\[\s*at\s*\]\s*/gi] *)
Definition at_re : regex :=
  Cat [spaces; Chr "["; spaces; Lit "at"; spaces; Chr "]"; spaces].

(** [/\s*\[\s*dot\s*\]\s*/gi] *)
Definition dot_re : regex :=
  Cat [spaces; Chr "["; spaces; Lit "dot"; spaces; Chr "]"; spaces].

(** [/[a-zA-Z0-9._%+-]+\s*\[\s*at\s*\]\s*[a-zA-Z0-9.-]+\s*\[\s*dot\s*\]\s*[a-zA-Z]{2,}/gi] *)
Definition obfuscated_re : regex :=
  Cat [Plus local_class; at_re; Plus domain_class; dot_re;
       AtLeast2 alpha_class].

(** [(?:https?:\/\/)?] *)
Definition scheme_re : regex :=
  Opt (Cat [Lit "http"; Opt (Chr "s"); Lit "://"]).

(** [(?:www\.)?] *)
Definition www_re : regex := Opt (Lit "www.").

(** [/(?:https?:\/\/)?(?:www\.)?facebook\.com\/[a-zA-Z0-9._%+-]+/gi] *)
Definition facebook_re : regex :=
  Cat [scheme_re; www_re; Lit "facebook.com/"; Plus local_class].

(** [/(?:https?:\/\/)?(?:www\.)?instagram\.com\/[a-zA-Z0-9._]+/gi] *)
Definition instagram_re : regex :=
  Cat [scheme_re; www_re; Lit "instagram.com/"; Plus handle_class].

(** The filter of the first email pass (lines 133-141). *)
Definition email_filter (email : string) : bool :=
  let lower := toLowerCase email in
  negb (endsWith lower ".png") &&
  negb (endsWith lower ".jpg") &&
  negb (endsWith lower ".jpeg") &&
  negb (includes lower "example") &&
  negb (includes lower "test@") &&
  includes lower ".".

(** The emails matched in plain form and kept by the filter
    (lines 131-142). *)
Definition plainEmails (html : string) : list string :=
  new_Set (filter email_filter (match_all email_re html)).

(** [email.replace(/..at../gi, '@').replace(/..dot../gi, '.')] *)
Definition deobfuscate (email : string) : string :=
  replace_all dot_re "." (replace_all at_re "@" email).

(** The emails written as [local [at] domain [dot] tld] (lines 145-146). *)
Definition obfuscatedEmails (html : string) : list string :=
  map deobfuscate (match_all obfuscated_re html).

(** [emails = [...new Set([...emails, ...obfuscatedEmails])]] (line 148). *)
Definition mine_emails (html : string) : list string :=
  new_Set (plainEmails html ++ obfuscatedEmails html).

(** [link.startsWith('http') ? link : 'https://' + link] *)
Definition absolute (link : string) : string :=
  if startsWith link "http" then link else ("https://" ++ link)%string.

(** A link begins with a scheme: [http://] or [https://], the [s] in
    either case. *)
Definition has_scheme (link : string) : Prop :=
  exists rest,
    link = ("http://" ++ rest)%string \/
    link = ("https://" ++ rest)%string \/
    link = ("httpS://" ++ rest)%string.

Definition facebook_filter (link : string) : bool :=
  negb (includes link "/login") && negb (includes link "/share").

(** Lines 153-157. *)
Definition mine_facebook (html : string) : list string :=
  new_Set (filter facebook_filter
             (map absolute (match_all facebook_re html))).

(** Lines 162-165: the raw instagram links. *)
Definition instagramLinks (html : string) : list string :=
  new_Set (map absolute (match_all instagram_re html)).

Definition profile_filter (link : string) : bool :=
  negb (includes link "/p/") &&
  negb (includes link "/reel/") &&
  negb (includes link "/tv/") &&
  negb (includes link "/stories/").

(** Lines 167-177: the profile links, or the first raw link when there
    is no profile link. *)
Definition select_instagram (links : list string) : list string :=
  let profiles := filter profile_filter links in
  match profiles, links with
  | [], first :: _ => [first]
  | _, _ => profiles
  end.

Definition mine_instagram (html : string) : list string :=
  select_instagram (instagramLinks html).

(** The text has no [/]. *)
Fixpoint no_slash (s : string) : bool :=
  match s with
  | EmptyString => true
  | String c s' => negb (Ascii.eqb c "/") && no_slash s'
  end.

(** The last character of the text is [/]. *)
Fixpoint last_is_slash (s : string) : bool :=
  match s with
  | EmptyString => false
  | String c EmptyString => Ascii.eqb c "/"
  | String _ s' => last_is_slash s'
  end.


(** What [extractFromPage] computes from the content of the page. *)
Definition mine (html : string) : ContactBundle :=
  mkBundle (mine_emails html) (mine_facebook html) (mine_instagram html).

(** [extractFromPage]: the page is rendered and mined; any failure on
    the way (navigation, time-out) is caught and gives the empty
    bundle. *)
Definition extractFromPage (content : option string) : ContactBundle :=
  match content with
  | Some html => mine html
  | None => empty_bundle
  end.

End Miner.


(* ================================================================== *)
(** * Website enrichment: [extractContactInfoFromWebsite] *)
(* ================================================================== *)

Module Enrich.
Import JS Miner.

(** [arr.length === 0] *)
Definition is_empty (l : list string) : bool :=
  match l with [] => true | _ :: _ => false end.

(** The bundle has an entry in each of the three channels. *)
Definition sufficient (b : ContactBundle) : bool :=
  negb (is_empty (emails b)) &&
  negb (is_empty (facebook b)) &&
  negb (is_empty (instagram b)).

(** Lines 63-65: each field becomes the [Set] of both lists. *)
Definition merge (info internal : ContactBundle) : ContactBundle :=
  mkBundle (new_Set (emails info ++ emails internal))
           (new_Set (facebook info ++ facebook internal))
           (new_Set (instagram info ++ instagram internal)).

Section Orchestrator.

(** The outcome of [extractFromPage(page, u)]: a bundle, or [None]
    when the call throws. *)
Variable extractPage : string -> option ContactBundle.

(** The outcome of [findInternalPages(page, url)], which catches its
    own failures and then returns no page. *)
Variable findInternalPages : string -> list string.

(** The running bundle and the pages mined so far, in order. *)
Definition progress : Type := (ContactBundle * list string)%type.

(** The body of the loop over the internal pages (lines 58-68): a
    page whose mining throws is logged and passed over. *)
Definition visit_internal (acc : progress) (internalUrl : string)
  : progress :=
  match extractPage internalUrl with
  | Some internalInfo =>
      (merge (fst acc) internalInfo, snd acc ++ [internalUrl])
  | None => (fst acc, snd acc ++ [internalUrl])
  end.

(** Lines 49-75, once the page is open: the bundle returned and the
    pages on which [extractFromPage] was called. *)
Definition mine_site (url : string) (visitInternalPages : bool)
  : progress :=
  match extractPage url with
  | None => (empty_bundle, [url])
  | Some contactInfo =>
      if visitInternalPages &&
         (is_empty (emails contactInfo) ||
          is_empty (facebook contactInfo) ||
          is_empty (instagram contactInfo))
      then fold_left visit_internal
             (firstn 3 (findInternalPages url)) (contactInfo, [url])
      else (contactInfo, [url])
  end.

(** The browser session around the mining. *)
Record Session : Type := mkSession {
  launches : bool;     (* puppeteer.launch resolves *)
  opens : bool;        (* newPage, setUserAgent, setRequestInterception *)
  closes : bool        (* browser.close resolves *)
}.

(** [extractContactInfoFromWebsite]: [None] when the call throws (the
    launch is outside the [try], the close is in the [finally]). *)
Definition extractContactInfoFromWebsite
    (session : Session) (url : string) (visitInternalPages : bool)
  : option ContactBundle :=
  if launches session then
    let contactInfo :=
      if opens session then fst (mine_site url visitInternalPages)
      else empty_bundle in
    if closes session then Some contactInfo else None
  else None.

(** The internal pages mined by a call. *)
Definition internal_visits (url : string) (visitInternalPages : bool)
  : list string :=
  tl (snd (mine_site url visitInternalPages)).

(** What some page of [pages], mined without failure, contributes to a
    field. *)
Definition contributed (field : ContactBundle -> list string)
    (pages : list string) (e : string) : Prop :=
  exists u info,
    In u pages /\ extractPage u = Some info /\ In e (field info).

End Orchestrator.

(** The policy as the specification words it: when there are
    candidate pages, some internal page is mined exactly when the
    bundle of the homepage is not sufficient. *)
Definition visits_iff_insufficient
    (extractPage : string -> option ContactBundle)
    (findInternalPages : string -> list string)
    (url : string) (visitInternalPages : bool) : Prop :=
  forall home, extractPage url = Some home ->
    findInternalPages url <> [] ->
    (internal_visits extractPage findInternalPages url visitInternalPages
       <> []
     <-> sufficient home = false).

(** A site of five candidate pages whose homepage gives an email only,
    the mining of the second candidate failing. *)
Definition site_pages (u : string) : option ContactBundle :=
  if String.eqb u "https://acme.test/" then
    Some (mkBundle ["info@acme.test"] [] [])
  else if String.eqb u "https://acme.test/about" then None
  else if String.eqb u "https://acme.test/team" then
    Some (mkBundle ["info@acme.test"; "team@acme.test"]
                   ["https://facebook.com/acme"] [])
  else Some empty_bundle.

Definition site_candidates (u : string) : list string :=
  ["https://acme.test/contact"; "https://acme.test/about";
   "https://acme.test/team"; "https://acme.test/staff";
   "https://acme.test/reach"].

(** The program's instance: [extractFromPage] never throws. *)
Definition program_extractPage (render : string -> option string)
  : string -> option ContactBundle :=
  fun u => Some (extractFromPage (render u)).

End Enrich.

(* ================================================================== *)
(** * Discovery and per-listing extraction: [scrapeGoogleMaps] *)
(* ================================================================== *)

Module Maps.
Import JS Miner.

(** The numbers [parseInt] returns: an integer or [NaN]. *)
Inductive number : Type :=
| Num (z : Z)
| NaN.

(** [a >= b] and [a < b] with an integer on the left; every comparison
    with [NaN] is false. *)
Definition ge_num (a : Z) (b : number) : bool :=
  match b with
  | Num z => (z <=? a)%Z
  | NaN => false
  end.

Definition lt_num (a : Z) (b : number) : bool :=
  match b with
  | Num z => (a <? z)%Z
  | NaN => false
  end.

(** [Math.min(a, b)] with an integer on the left. *)
Definition min_num (a : Z) (b : number) : number :=
  match b with
  | Num z => Num (Z.min a z)
  | NaN => NaN
  end.

Definition MAX_SCROLLS : nat := 20.

(** What one round of the loop sees of the page. *)
Inductive observation : Type :=
| NoPanel                 (* page.$('div[role=feed]') is null *)
| Loaded (count : nat)    (* the number of a.hfpxzc anchors *)
| Crashed.                (* a call on the page throws *)

(** Why the loop was left. *)
Inductive stop_reason : Type :=
| PanelMissing
| TargetReached
| Stalled
| RoundCap
| Thrown.

(** [rounds]: the rounds that scrolled the panel; [graces]: the rounds
    (counted from 1) followed by the wait of 30 s; [stop]: why the loop
    was left. *)
Record scroll_result : Type := mkScroll {
  rounds : nat;
  graces : list nat;
  stop : stop_reason
}.

Definition with_grace (round : nat) (r : scroll_result) : scroll_result :=
  mkScroll (rounds r) (round :: graces r) (stop r).

(** The [for] loop of lines 209-245 from round [i] (counted from 0) on,
    [left] rounds remaining. *)
Fixpoint scroll_from (targetCount : number) (feed : nat -> observation)
    (left i lastCount noNewResultsCount : nat) : scroll_result :=
  match left with
  | O => mkScroll i [] RoundCap
  | S left' =>
      match feed i with
      | NoPanel => mkScroll i [] PanelMissing
      | Crashed => mkScroll i [] Thrown
      | Loaded currentCount =>
          if ge_num (Z.of_nat currentCount) targetCount
          then mkScroll (S i) [] TargetReached
          else if Nat.eqb currentCount lastCount
          then
            if (2 <=? S noNewResultsCount)%nat
            then mkScroll (S i) [] Stalled
            else with_grace (S i)
                   (scroll_from targetCount feed left' (S i) currentCount
                      (S noNewResultsCount))
          else scroll_from targetCount feed left' (S i) currentCount 0
      end
  end.

Definition scroll (targetCount : number) (feed : nat -> observation)
  : scroll_result :=
  scroll_from targetCount feed MAX_SCROLLS 0 0 0.

(** The count loaded before round [i] (counted from 0): none before
    the first round. *)
Definition prev_count (feed : nat -> observation) (i : nat) : nat :=
  match i with
  | O => 0
  | S k => match feed k with Loaded c => c | _ => 0 end
  end.








(** The delay of a round (line 219) and the grace period (line 239),
    in milliseconds. *)
Definition round_delay (targetCount : number) : Z :=
  match targetCount with
  | Num z => if (z <? 20)%Z then 3000%Z else 15000%Z
  | NaN => 15000%Z
  end.

Definition GRACE : Z := 30000%Z.

(** The time the loop spends waiting. *)
Definition waited (targetCount : number) (r : scroll_result) : Z :=
  (Z.of_nat (rounds r) * round_delay targetCount
   + Z.of_nat (length (graces r)) * GRACE)%Z.

(** A listing stub [{ name, link }]. *)
Record Business : Type := mkBusiness {
  name : string;
  link : string
}.

(** A row of the result. *)
Record LeadRecord : Type := mkLead {
  lead_name : string;
  maps_link : string;
  phone : string;
  website : string;
  rating : string;
  reviews : string;
  lead_emails : string;
  lead_facebook : string;
  lead_instagram : string
}.

(** The record of the [catch] of lines 326-336. *)
Definition empty_record (business : Business) : LeadRecord :=
  mkLead (name business) (link business) "" "" "" "" "" "" "".

(** What the steps on one listing give: [false] or [None] when the
    step throws. *)
Record Steps : Type := mkSteps {
  newPage : bool;
  setRequestInterception : bool;
  goto : bool;
  phone_found : option string;
  website_found : option string;
  rating_found : option (string * string);
  enriched : option ContactBundle;   (* extractContactInfoFromWebsite *)
  close : bool
}.

(** Lines 298-309: the contact bundle of the listing; a failure of the
    enrichment is caught there and leaves the empty bundle. *)
Definition contact_info (site : string) (o : Steps) : ContactBundle :=
  match site with
  | EmptyString => empty_bundle
  | String _ _ =>
      match enriched o with
      | Some info => info
      | None => empty_bundle
      end
  end.

(** Lines 311-321. *)
Definition full_record (business : Business) (ph site : string)
    (rr : string * string) (info : ContactBundle) : LeadRecord :=
  mkLead (name business) (link business) ph site (fst rr) (snd rr)
         (join ", " (emails info))
         (join ", " (facebook info))
         (join ", " (instagram info)).

(** The body of the loop over the listings (lines 259-337): the records
    pushed for one listing. *)
Definition process_listing (business : Business) (o : Steps)
  : list LeadRecord :=
  if newPage o && setRequestInterception o && goto o then
    match phone_found o, website_found o, rating_found o with
    | Some ph, Some site, Some rr =>
        let pushed := full_record business ph site rr (contact_info site o) in
        if close o then [pushed] else [pushed; empty_record business]
    | _, _, _ => [empty_record business]
    end
  else [empty_record business].

(** The loop of line 258 from index [i] on, over the stubs not yet
    reached; [bound] is [Math.min(businesses.length, targetCount)]. *)
Fixpoint process_from (bound : number) (steps : nat -> Steps)
    (i : nat) (businesses : list Business) : list LeadRecord :=
  match businesses with
  | [] => []
  | business :: rest =>
      if lt_num (Z.of_nat i) bound
      then process_listing business (steps i)
           ++ process_from bound steps (S i) rest
      else []
  end.

(** The stubs the loop of line 258 reaches. *)
Fixpoint processed_from (bound : number) (i : nat)
    (businesses : list Business) : list Business :=
  match businesses with
  | [] => []
  | business :: rest =>
      if lt_num (Z.of_nat i) bound
      then business :: processed_from bound (S i) rest
      else []
  end.

Definition loop_bound (businesses : list Business) (targetCount : number)
  : number :=
  min_num (Z.of_nat (length businesses)) targetCount.

Definition processed (businesses : list Business) (targetCount : number)
  : list Business :=
  processed_from (loop_bound businesses targetCount) 0 businesses.

(** The number of indices from 0 below a bound. *)
Definition iterations (bound : number) : nat :=
  match bound with
  | Num z => Z.to_nat z
  | NaN => 0
  end.

(** The rows of the stubs [bs], the first of which has index [i], each
    from its own stub and its own steps. *)
Definition rows_of (steps : nat -> Steps) (i : nat) (bs : list Business)
  : list LeadRecord :=
  flat_map (fun kb => process_listing (snd kb) (steps (fst kb)))
           (combine (seq i (length bs)) bs).

(** A step on the listing fails that the handler of the listing
    catches: opening the page, the navigation, reading a field,
    closing the page. *)
Definition listing_failed (o : Steps) : bool :=
  negb (newPage o && setRequestInterception o && goto o &&
        match phone_found o, website_found o, rating_found o with
        | Some _, Some _, Some _ => true
        | _, _, _ => false
        end && close o).

(** The enrichment of the website is tried and throws. *)
Definition enrichment_failed (o : Steps) : bool :=
  match website_found o, enriched o with
  | Some (String _ _), None => true
  | _, _ => false
  end.

(** Some step on the listing fails. *)
Definition step_failed (o : Steps) : bool :=
  listing_failed o || enrichment_failed o.

(** The claim on a failing listing, as the specification words it. *)
Definition empty_record_on_failure (business : Business) (o : Steps)
  : Prop :=
  step_failed o = true ->
  In (empty_record business) (process_listing business o).

(** No two stubs have the same link. *)
Definition distinct_links (bs : list Business) : Prop :=
  NoDup (map link bs).

(** The page of results as the run finds it. *)
Record MapsPage : Type := mkMapsPage {
  launched : bool;                        (* puppeteer.launch *)
  opened : bool;                          (* newPage and goto *)
  feed : nat -> observation;              (* what each round sees *)
  anchors : option (list Business);       (* the stubs read at line 247 *)
  steps : nat -> Steps;                   (* the steps on listing i *)
  closed : bool                           (* browser.close *)
}.

(** [scrapeGoogleMaps(searchQuery, targetCount, ...)]: the rows, or
    [None] when the promise is rejected. *)
Definition scrapeGoogleMaps (targetCount : number) (page : MapsPage)
  : option (list LeadRecord) :=
  if launched page && opened page then
    match stop (scroll targetCount (feed page)), anchors page with
    | Thrown, _ => None
    | _, None => None
    | _, Some businesses =>
        if closed page
        then Some (process_from (loop_bound businesses targetCount)
                     (steps page) 0 businesses)
        else None
    end
  else None.

End Maps.

(* ================================================================== *)
(** * The job state machine: [POST /api/scrape] *)
(* ================================================================== *)

Module Job.
Import Maps.

(** The values a field of the JSON body can hold. *)
Inductive jsval : Type :=
| JUndefined                (* the field is missing *)
| JNull
| JBool (b : bool)
| JNum (z : Z)
| JStr (s : string)
| JObject.                  (* an object or an array *)

(** ToBoolean: [!v] is the negation of [truthy v]. *)
Definition truthy (v : jsval) : bool :=
  match v with
  | JUndefined | JNull => false
  | JBool b => b
  | JNum z => negb (z =? 0)%Z
  | JStr s => negb (String.eqb s "")
  | JObject => true
  end.

(** [req.body] *)
Record Body : Type := mkBody {
  query : jsval;
  count : jsval;
  visitInternalPages : jsval
}.

(** [processingState] *)
Record ProcessingState : Type := mkState {
  isProcessing : bool;
  currentQuery : jsval;
  currentCount : number;
  startTime : option Z;
  processId : option Z       (* the instant in proc_<instant> *)
}.

(** Lines 18-24, and the state written at lines 457-461 and 467-471. *)
Definition idle : ProcessingState :=
  mkState false (JStr "") (Num 0) None None.

(** A pipeline started in the background. *)
Record Run : Type := mkRun {
  run_query : jsval;
  run_count : number;
  run_visit : bool
}.

Inductive Response : Type :=
| BadRequest                                        (* 400 *)
| Conflict (q : jsval) (n : number) (elapsed : Z)   (* 429 *)
| Started (id : Z) (q : jsval) (n : number).        (* 200 *)

(** [Date.now() - processingState.startTime]; [null] counts as 0. *)
Definition elapsed_since (now : Z) (start : option Z) : Z :=
  match start with
  | Some t => (now - t)%Z
  | None => now
  end.

(** The default of the destructuring at line 405. *)
Definition visit_flag (v : jsval) : bool :=
  match v with
  | JUndefined => true
  | _ => truthy v
  end.

Section Handler.

(** The built-in [parseInt] on the values of a body. *)
Variable parseInt : jsval -> number.

(** The synchronous part of the handler (lines 405-442): the response,
    the state left, and the pipeline started if any.  [now] is what
    [Date.now()] reads at line 419, for the time elapsed of a conflict,
    or at line 427, for [startTime]; [stamp] is what it reads again at
    line 428, for the process id. *)
Definition post_scrape (now stamp : Z) (body : Body)
    (st : ProcessingState)
  : Response * ProcessingState * option Run :=
  if negb (truthy (query body)) || negb (truthy (count body)) then
    (BadRequest, st, None)
  else if isProcessing st then
    (Conflict (currentQuery st) (currentCount st)
       (elapsed_since now (startTime st)), st, None)
  else
    let st' := mkState true (query body) (parseInt (count body))
                 (Some now) (Some stamp) in
    (Started stamp (query body) (parseInt (count body)), st',
     Some (mkRun (query body) (parseInt (count body))
             (visit_flag (visitInternalPages body)))).

(** How a pipeline ends: the promise of [scrapeGoogleMaps], and
    whether [createExcelFile] succeeds. *)
Record Ending : Type := mkEnding {
  scraped : option (list LeadRecord);
  written : bool
}.

(** The part of the handler after [await scrapePromise] (lines
    445-472): the state left and the export written if any.  The
    file name needs [query.replace], which only a string has. *)
Definition pipeline_done (run : Run) (e : Ending) (st : ProcessingState)
  : ProcessingState * option (list LeadRecord) :=
  match scraped e, run_query run with
  | Some results, JStr _ =>
      if written e then (idle, Some results) else (idle, None)
  | _, _ => (idle, None)
  end.

(** The server: the shared state, the pipelines in flight and the
    exports written. *)
Record Server : Type := mkServer {
  state : ProcessingState;
  in_flight : list Run;
  exports : list (list LeadRecord)
}.

Definition boot : Server := mkServer idle [] [].

Inductive Event : Type :=
| Request (now stamp : Z) (body : Body)  (* a POST /api/scrape arrives *)
| Finish (k : nat) (e : Ending).      (* the k-th pipeline ends *)

Definition push_export (x : option (list LeadRecord))
    (l : list (list LeadRecord)) : list (list LeadRecord) :=
  match x with
  | Some rows => l ++ [rows]
  | None => l
  end.

Definition spawn (r : option Run) (l : list Run) : list Run :=
  match r with
  | Some run => l ++ [run]
  | None => l
  end.

Fixpoint remove_nth (k : nat) (l : list Run) : list Run :=
  match l, k with
  | [], _ => []
  | _ :: t, O => t
  | x :: t, S k' => x :: remove_nth k' t
  end.

(** One event: the server left and the response sent, if the event is
    a request. *)
Definition step (sv : Server) (ev : Event) : Server * option Response :=
  match ev with
  | Request now stamp body =>
      let '(resp, st', started) :=
        post_scrape now stamp body (state sv) in
      (mkServer st' (spawn started (in_flight sv)) (exports sv),
       Some resp)
  | Finish k e =>
      match nth_error (in_flight sv) k with
      | Some run =>
          let (st', out) := pipeline_done run e (state sv) in
          (mkServer st' (remove_nth k (in_flight sv))
             (push_export out (exports sv)), None)
      | None => (sv, None)
      end
  end.

(** A run of the server over a list of events, with the responses
    sent. *)
Fixpoint run_events (sv : Server) (evs : list Event)
  : Server * list Response :=
  match evs with
  | [] => (sv, [])
  | ev :: evs' =>
      let (sv1, r) := step sv ev in
      let (sv2, rs) := run_events sv1 evs' in
      (sv2, match r with Some x => x :: rs | None => rs end)
  end.


Definition valid (body : Body) : bool :=
  truthy (query body) && truthy (count body).



End Handler.

End Job.

(* ================================================================== *)
(** * Candidate internal pages: [findInternalPages] *)
(* ================================================================== *)

Module Discover.
Import JS.

(** Line 89. *)
Definition keywords : list string :=
  ["contact"; "about"; "team"; "staff"; "reach"; "get-in-touch"].

Section Links.

(** [new URL(u).hostname], [None] when the constructor throws. *)
Variable hostname : string -> option string.

(** The filter of lines 93-99: the link parses, is on the host of the
    site and contains a keyword, whatever the case of its letters. *)
Definition candidate (baseHost href : string) : bool :=
  match hostname href with
  | Some host =>
      String.eqb host baseHost &&
      existsb (fun keyword => includes (toLowerCase href) keyword) keywords
  | None => false
  end.

(** [findInternalPages(page, baseUrl)] on a page whose anchors have the
    targets [hrefs], in the order of the document; [None] when the
    navigation or the evaluation throws, which the function catches. *)
Definition findInternalPages (dom : option (list string))
    (baseUrl : string) : list string :=
  match dom with
  | None => []
  | Some hrefs =>
      match hostname baseUrl with
      | None => []
      | Some baseHost =>
          new_Set (firstn 5 (filter (candidate baseHost) hrefs))
      end
  end.

End Links.

End Discover.

(* ================================================================== *)
(** * The fields of a listing: the evaluations of lines 273-295 *)
(* ================================================================== *)

Module Fields.
Import JS RegExp.

(** [\d] *)
Definition digit : regex := Cls [("0", "9")]%char.

(** [[\d\s\-().]] *)
Definition phone_class : regex :=
  Cls [("0", "9")%char; (ascii_of_nat 9, ascii_of_nat 13); one " "%char;
       one (ascii_of_nat 160); one "-"%char; one "("%char; one ")"%char;
       one "."%char].

(** [r{n}] followed by [k]. *)
Fixpoint Times (n : nat) (r k : regex) : regex :=
  match n with
  | O => k
  | S n' => Seq r (Times n' r k)
  end.

(** [r{n,}] *)
Definition AtLeast (n : nat) (r : regex) : regex := Times n r (Star r).

(** [/\+?\d[\d\s\-().]{7,}/]; the pattern has no letter, so the flag
    [i] of the matcher changes nothing. *)
Definition phone_re : regex :=
  Cat [Opt (Chr "+"); digit; AtLeast 7 phone_class].

(** [/^\d+(\.\d+)?$/], the anchors apart. *)
Definition rating_re : regex :=
  Cat [Plus digit; Opt (Cat [Chr "."; Plus digit])].

(** [/\(\d{1,3}(,\d{3})*\)/] *)
Definition reviews_re : regex :=
  Cat [Chr "("; digit; Opt (Seq digit (Opt digit));
       Star (Cat [Chr ","; digit; digit; digit]); Chr ")"].

(** [re.test(s)] for a pattern without anchors: the pattern matches at
    some position of [s]. *)
Fixpoint test (r : regex) (s : string) : bool :=
  match exec r s with
  | Some _ => true
  | None =>
      match s with
      | EmptyString => false
      | String _ s' => test r s'
      end
  end.

(** [/^r$/.test(s)]: some way of matching [r] from the start of [s]
    ends at the end of [s]. *)
Definition test_whole (r : regex) (s : string) : bool :=
  existsb (fun ms => String.eqb (snd ms) "") (ends r s).

Definition is_digit (c : ascii) : bool :=
  let n := nat_of_ascii c in ((48 <=? n) && (n <=? 57))%nat.

(** White space and line terminators on code units below 256. *)
Definition is_space (c : ascii) : bool :=
  let n := nat_of_ascii c in
  (((9 <=? n) && (n <=? 13)) || (n =? 32) || (n =? 160))%nat.

(** [s.replace(/[^...]/g, '')] for a class of single characters: the
    characters of the class are kept, every other one is removed. *)
Fixpoint keep (allowed : ascii -> bool) (s : string) : string :=
  match s with
  | EmptyString => EmptyString
  | String c s' =>
      if allowed c then String c (keep allowed s') else keep allowed s'
  end.

Fixpoint trimStart (s : string) : string :=
  match s with
  | EmptyString => EmptyString
  | String c s' => if is_space c then trimStart s' else s
  end.

Fixpoint trimEnd (s : string) : string :=
  match s with
  | EmptyString => EmptyString
  | String c s' =>
      match trimEnd s' with
      | EmptyString => if is_space c then EmptyString else String c ""
      | t => String c t
      end
  end.

(** [String.prototype.trim] *)
Definition trim (s : string) : string := trimEnd (trimStart s).

(** Every character of the text, or some character, has the property. *)
Fixpoint all_chars (p : ascii -> bool) (s : string) : bool :=
  match s with
  | EmptyString => true
  | String c s' => p c && all_chars p s'
  end.

Fixpoint some_char (p : ascii -> bool) (s : string) : bool :=
  match s with
  | EmptyString => false
  | String c s' => p c || some_char p s'
  end.

(** The text begins, or ends, with white space. *)
Definition space_first (s : string) : bool :=
  match s with
  | EmptyString => false
  | String c _ => is_space c
  end.

Fixpoint space_last (s : string) : bool :=
  match s with
  | EmptyString => false
  | String c EmptyString => is_space c
  | String _ s' => space_last s'
  end.

(** The class [[\d+()\-\s]] of line 276. *)
Definition phone_char (c : ascii) : bool :=
  is_digit c || Ascii.eqb c "+" || Ascii.eqb c "(" || Ascii.eqb c ")" ||
  Ascii.eqb c "-" || is_space c.

(** Lines 273-277 on the texts of the [button] and [span] elements, in
    the order of the document. *)
Definition phone (texts : list string) : string :=
  match find (test phone_re) texts with
  | Some textContent => trim (keep phone_char textContent)
  | None => ""
  end.

(** A [span]: its attribute [aria-hidden] and its text. *)
Record Span : Type := mkSpan {
  ariaHidden : option string;
  textContent : string
}.

Definition is_true_attr (a : option string) : bool :=
  match a with
  | Some v => String.eqb v "true"
  | None => false
  end.

(** Lines 285-287 and 292. *)
Definition rating (spans : list Span) : string :=
  match find (fun el => is_true_attr (ariaHidden el) &&
                        test_whole rating_re (trim (textContent el)))
             spans with
  | Some ratingEl => trim (textContent ratingEl)
  | None => ""
  end.

(** The complement of [[()]]. *)
Definition not_paren (c : ascii) : bool :=
  negb (Ascii.eqb c "(" || Ascii.eqb c ")").

(** Lines 288-290 and 293. *)
Definition reviews (spans : list Span) : string :=
  match find (fun el => test reviews_re (trim (textContent el))) spans with
  | Some reviewsEl => trim (keep not_paren (textContent reviewsEl))
  | None => ""
  end.

End Fields.

(* ================================================================== *)
(** * What identifies a row and a stub *)
(* ================================================================== *)

Module Rows.
Import Maps.

Definition key_of_record (r : LeadRecord) : string * string :=
  (lead_name r, maps_link r).

Definition key_of_stub (b : Business) : string * string :=
  (name b, link b).

End Rows.

(* ================================================================== *)
(** * Exports: file names, listing, polling, download and deletion *)
(* ================================================================== *)

Module Files.
Import JS Maps Job.

Definition is_alnum (c : ascii) : bool :=
  let n := nat_of_ascii c in
  (((48 <=? n) && (n <=? 57)) || ((65 <=? n) && (n <=? 90)) ||
   ((97 <=? n) && (n <=? 122)))%nat.

(** [s.replace(/[^C]/g, x)] for a class of single characters and a
    single character [x]. *)
Fixpoint replace_outside (inside : ascii -> bool) (x : ascii) (s : string)
  : string :=
  match s with
  | EmptyString => EmptyString
  | String c s' =>
      String (if inside c then c else x) (replace_outside inside x s')
  end.

(** [query.replace(/[^a-zA-Z0-9]/g, '_')] *)
Definition sanitize (query : string) : string :=
  replace_outside is_alnum "_" query.

(** [s.split('T')[0]] *)
Fixpoint before_T (s : string) : string :=
  match s with
  | EmptyString => EmptyString
  | String c s' => if Ascii.eqb c "T" then EmptyString else String c (before_T s')
  end.

(** Line 448 on the text of [toISOString()]. *)
Definition timestamp (iso : string) : string :=
  before_T (replace_outside
              (fun c => negb (Ascii.eqb c ":" || Ascii.eqb c ".")) "-" iso).

(** Line 449; [now] is the text of [Date.now()]. *)
Definition filename (query iso now : string) : string :=
  ("leads_" ++ sanitize query ++ "_" ++ timestamp iso ++ "_" ++ now
   ++ ".xlsx")%string.

(** What [statSync] tells of a file of the directory. *)
Record FileStat : Type := mkFile {
  fname : string;
  birthtime : Z;     (* milliseconds *)
  fsize : Z          (* bytes *)
}.

Definition is_xlsx (f : FileStat) : bool := endsWith (fname f) ".xlsx".

(** [arr.sort((a, b) => b.created - a.created)]: the sort is stable,
    the most recent first. *)
Fixpoint insert_recent (x : FileStat) (l : list FileStat) : list FileStat :=
  match l with
  | [] => [x]
  | y :: l' =>
      if (birthtime y <=? birthtime x)%Z then x :: y :: l'
      else y :: insert_recent x l'
  end.

Fixpoint sort_recent (l : list FileStat) : list FileStat :=
  match l with
  | [] => []
  | x :: l' => insert_recent x (sort_recent l')
  end.

(** The files that [GET /api/files] answers (lines 529-543), each with
    the size and the creation time its entry is written from; [None]
    when reading the directory throws and the answer is 500. *)
Definition list_files (dir : option (list FileStat))
  : option (list FileStat) :=
  match dir with
  | Some files => Some (sort_recent (filter is_xlsx files))
  | None => None
  end.

(** [GET /api/status] (lines 392-401): the state and the time elapsed. *)
Record Status : Type := mkStatus {
  st_isProcessing : bool;
  st_query : jsval;
  st_count : number;
  st_startTime : option Z;
  st_processId : option Z;
  st_elapsed : Z
}.

Definition get_status (now : Z) (st : ProcessingState) : Status :=
  mkStatus (isProcessing st) (currentQuery st) (currentCount st)
    (startTime st) (processId st)
    (match startTime st with
     | Some t => if (t =? 0)%Z then 0%Z else (now - t)%Z
     | None => 0%Z
     end).

Inductive Poll : Type :=
| Processing (q : jsval) (n : number) (elapsed : Z)
| Completed (f : FileStat)
| NoFiles
| PollError.

(** The [try] of lines 490-524: the answer read from the directory,
    [None] when reading it throws. *)
Definition from_directory (dir : option (list FileStat)) : Poll :=
  match dir with
  | None => PollError
  | Some files =>
      match sort_recent (filter is_xlsx files) with
      | recentFile :: _ => Completed recentFile
      | [] => NoFiles
      end
  end.

Section Polling.

(** The text [proc_<instant>] of a process id. *)
Variable proc_name : Z -> string.

(** [GET /api/results/:processId] (lines 476-525). *)
Definition get_results (now : Z) (st : ProcessingState)
    (dir : option (list FileStat)) (processId' : string) : Poll :=
  if isProcessing st &&
     match processId st with
     | Some t => String.eqb (proc_name t) processId'
     | None => false
     end
  then Processing (currentQuery st) (currentCount st)
         (elapsed_since now (startTime st))
  else from_directory dir.

End Polling.


(** The characters of a file name that are no separator of a path. *)
Definition safe_char (c : ascii) : bool :=
  is_alnum c || Ascii.eqb c "_".

(** The files are in the order of the sort: none is older than one
    that follows it. *)
Definition recent_first (l : list FileStat) : Prop :=
  StronglySorted (fun a b => (birthtime b <= birthtime a)%Z) l.

(** The number of requests accepted among the responses. *)
Fixpoint accepted (rs : list Response) : nat :=
  match rs with
  | [] => 0
  | Started _ _ _ :: rs' => S (accepted rs')
  | _ :: rs' => accepted rs'
  end.

(** What the handler of a download does: it answers 404 itself, or
    hands the path and the name to [res.download], whose answer is the
    library's own (the file, or a refusal as for a name that begins
    with a dot). *)
Inductive Download : Type :=
| Missing                                 (* the 404 of line 556 *)
| Handed (filepath filename : string).    (* res.download(filepath, filename) *)

(** The answers of a deletion. *)
Inductive Deletion : Type :=
| NotFound        (* 404 *)
| Deleted         (* success *)
| ServerError.    (* 500 *)

Section Disk.

(** [path.join(EXCEL_DIR, filename)] *)
Variable join : string -> string.

(** The paths that exist. *)
Definition disk : Type := list string.

Definition existsSync (d : disk) (p : string) : bool :=
  existsb (String.eqb p) d.

(** [GET /api/download/:filename] (lines 551-560). *)
Definition download (d : disk) (name : string) : Download :=
  if existsSync d (join name) then Handed (join name) name else Missing.

(** [DELETE /api/files/:filename] (lines 563-578); [unlinks] tells
    whether [unlinkSync] succeeds. *)
Definition delete_file (unlinks : bool) (d : disk) (name : string)
  : Deletion * disk :=
  if existsSync d (join name) then
    if unlinks
    then (Deleted, filter (fun p => negb (String.eqb p (join name))) d)
    else (ServerError, d)
  else (NotFound, d).

End Disk.

End Files.

(* ================================================================== *)
(** * Properties of the primitives *)
(* ================================================================== *)

Section SetFacts.
Import JS.

Lemma existsb_eqb_In (x : string) (l : list string) :
  existsb (String.eqb x) l = true <-> In x l.
Proof.
  rewrite existsb_exists. split.
  - intros [y [Hy He]]. apply String.eqb_eq in He. now subst.
  - intros H. exists x. split; [assumption | apply String.eqb_refl].
Qed.

Lemma set_add_In (acc : list string) (x y : string) :
  In y (set_add acc x) <-> In y acc \/ y = x.
Proof.
  unfold set_add. destruct (existsb (String.eqb x) acc) eqn:E.
  - apply existsb_eqb_In in E. split; [auto |].
    intros [H | ->]; assumption.
  - rewrite in_app_iff. simpl. split.
    + intros [H | [H | []]]; auto.
    + intros [H | H]; auto.
Qed.

Lemma set_add_NoDup (acc : list string) (x : string) :
  NoDup acc -> NoDup (set_add acc x).
Proof.
  intros H. unfold set_add.
  destruct (existsb (String.eqb x) acc) eqn:E; [assumption |].
  assert (Hx : ~ In x acc).
  { intros Hin. apply existsb_eqb_In in Hin. congruence. }
  clear E. induction H as [| a l Ha Hl IH]; simpl.
  - constructor; [intros [] | constructor].
  - constructor.
    + rewrite in_app_iff. simpl. intros [H1 | [H1 | []]].
      * contradiction.
      * subst. apply Hx. now left.
    + apply IH. intros H1. apply Hx. now right.
Qed.

Lemma fold_set_add_In (l acc : list string) (y : string) :
  In y (fold_left set_add l acc) <-> In y acc \/ In y l.
Proof.
  revert acc. induction l as [| x l IH]; intros acc; simpl.
  - tauto.
  - rewrite IH, set_add_In. intuition congruence.
Qed.

Lemma fold_set_add_NoDup (l acc : list string) :
  NoDup acc -> NoDup (fold_left set_add l acc).
Proof.
  revert acc. induction l as [| x l IH]; intros acc H; simpl.
  - assumption.
  - apply IH, set_add_NoDup, H.
Qed.

(** A [Set] holds exactly the elements given to it. *)
Lemma new_Set_In (l : list string) (y : string) :
  In y (new_Set l) <-> In y l.
Proof.
  unfold new_Set. rewrite fold_set_add_In. simpl. tauto.
Qed.

(** A [Set] holds no string twice. *)
Lemma new_Set_NoDup (l : list string) : NoDup (new_Set l).
Proof.
  apply fold_set_add_NoDup. constructor.
Qed.

End SetFacts.

Section RegExpFacts.
Import RegExp.

Lemma extend_In (m1 : string) (rs : list result) (m s' : string) :
  In (m, s') (extend m1 rs) ->
  exists m2, m = (m1 ++ m2)%string /\ In (m2, s') rs.
Proof.
  unfold extend. rewrite in_map_iff.
  intros [[m2 s2] [E H]]. simpl in E. inversion E; subst.
  now exists m2.
Qed.

Lemma append_assoc (a b c : string) :
  ((a ++ b) ++ c)%string = (a ++ (b ++ c))%string.
Proof.
  induction a as [| x a IH]; simpl; [reflexivity | now rewrite IH].
Qed.

Lemma append_empty_r (a : string) : (a ++ "")%string = a.
Proof.
  induction a as [| x a IH]; simpl; [reflexivity | now rewrite IH].
Qed.

(** What a pattern's iteration finds is built from what the pattern
    finds, whatever the bound on the iterations. *)
Lemma star_ends_sound (r : regex) (step : string -> list result) :
  (forall s m s', In (m, s') (step s) ->
     s = (m ++ s')%string /\ matches r m) ->
  forall n s m s', In (m, s') (star_ends step n s) ->
    s = (m ++ s')%string /\ matches (Star r) m.
Proof.
  intros Hstep n. induction n as [| n IH]; intros s m s' H; simpl in H.
  - destruct H as [H | []]. inversion H; subst. split; [reflexivity | constructor].
  - apply in_app_or in H. destruct H as [H | [H | []]].
    + apply in_flat_map in H. destruct H as [[m1 s1] [H1 H2]]. simpl in H2.
      destruct (String.length s1 <? String.length s)%nat; [| destruct H2].
      apply extend_In in H2. destruct H2 as [m2 [-> H2]].
      apply Hstep in H1. destruct H1 as [-> Hm1].
      apply IH in H2. destruct H2 as [-> Hm2].
      split; [now rewrite append_assoc | now constructor].
    + inversion H; subst. split; [reflexivity | constructor].
Qed.

(** Every match the matcher finds is a prefix of the text that the
    pattern denotes. *)
Lemma ends_sound (r : regex) :
  forall s m s', In (m, s') (ends r s) ->
    s = (m ++ s')%string /\ matches r m.
Proof.
  induction r as [| c | items | r1 IH1 r2 IH2 | r1 IH1 | r1 IH1];
    intros s m s' H; simpl in H.
  - destruct H as [H | []]. inversion H; subst. split; [reflexivity | constructor].
  - destruct s as [| x s0]; [destruct H |].
    destruct (chr_match c x) eqn:E; [| destruct H].
    destruct H as [H | []]. inversion H; subst.
    split; [reflexivity | now constructor].
  - destruct s as [| x s0]; [destruct H |].
    destruct (cls_match items x) eqn:E; [| destruct H].
    destruct H as [H | []]. inversion H; subst.
    split; [reflexivity | now constructor].
  - apply in_flat_map in H. destruct H as [[m1 s1] [H1 H2]]. simpl in H2.
    apply extend_In in H2. destruct H2 as [m2 [-> H2]].
    apply IH1 in H1. destruct H1 as [-> Hm1].
    apply IH2 in H2. destruct H2 as [-> Hm2].
    split; [now rewrite append_assoc | now constructor].
  - apply in_app_or in H. destruct H as [H | [H | []]].
    + apply IH1 in H. destruct H as [-> Hm]. split; [reflexivity | now constructor].
    + inversion H; subst. split; [reflexivity | constructor].
  - eapply star_ends_sound; eauto.
Qed.

Lemma exec_sound (r : regex) (s m : string) :
  exec r s = Some m -> matches r m.
Proof.
  unfold exec. destruct (ends r s) as [| [m0 s0] rest] eqn:E; [discriminate |].
  simpl. intros H. inversion H; subst.
  apply (ends_sound r s m s0). rewrite E. now left.
Qed.

(** Every element of [s.match(/r/gi)] is a text the pattern denotes. *)
Lemma match_all_sound (r : regex) (s m : string) :
  In m (match_all r s) -> matches r m.
Proof.
  unfold match_all. generalize 0 as skip.
  induction s as [| c s IH]; intros skip H; simpl in H.
  - destruct skip; [| destruct H].
    destruct (exec r "") eqn:E; [| destruct H].
    destruct H as [<- | []]. eapply exec_sound; eauto.
  - destruct skip as [| k]; [| eauto].
    destruct (exec r (String c s)) eqn:E; [| eauto].
    destruct H as [<- | H]; [eapply exec_sound; eauto | eauto].
Qed.

End RegExpFacts.

Section StarBound.
Import RegExp.

Lemma flat_map_nil {A B : Type} (f : A -> list B) (l : list A) :
  (forall a, f a = []) -> flat_map f l = [].
Proof.
  intros H. induction l as [| a l IH]; simpl; [reflexivity |].
  now rewrite H, IH.
Qed.

(** The bound on the iterations is never what ends an iteration: any
    bound from the length of the text on gives the same matches. *)
Lemma star_ends_bound (step : string -> list result) (n m : nat) :
  forall s, (String.length s <= n)%nat -> (String.length s <= m)%nat ->
    star_ends step n s = star_ends step m s.
Proof.
  revert m. induction n as [| n IH]; intros m s Hn Hm.
  - destruct m as [| m]; [reflexivity |]. simpl.
    rewrite flat_map_nil; [reflexivity |]. intros ms.
    destruct (String.length (snd ms) <? String.length s)%nat eqn:E;
      [| reflexivity].
    apply Nat.ltb_lt in E. lia.
  - destruct m as [| m]; simpl.
    + rewrite flat_map_nil; [reflexivity |]. intros ms.
      destruct (String.length (snd ms) <? String.length s)%nat eqn:E;
        [| reflexivity].
      apply Nat.ltb_lt in E. lia.
    + f_equal. apply flat_map_ext. intros ms.
      destruct (String.length (snd ms) <? String.length s)%nat eqn:E;
        [| reflexivity].
      apply Nat.ltb_lt in E. f_equal. apply IH; lia.
Qed.

End StarBound.

(* ================================================================== *)
(** * The contact miner *)
(* ================================================================== *)

Section MinerFacts.
Import JS RegExp Miner.

(** The emails of the first pass pass the filter. *)
Lemma plainEmails_filtered (html email : string) :
  In email (plainEmails html) -> email_filter email = true.
Proof.
  unfold plainEmails. rewrite new_Set_In, filter_In. tauto.
Qed.

(** The emitted emails are those of the two passes. *)
Lemma mine_emails_In (html email : string) :
  In email (mine_emails html) <->
  In email (plainEmails html) \/ In email (obfuscatedEmails html).
Proof.
  unfold mine_emails. now rewrite new_Set_In, in_app_iff.
Qed.

(** A character is its upper-case form or the lower-case form of it. *)
Lemma upper_char_cases (x : ascii) :
  x = upper_char x \/ x = lower_char (upper_char x).
Proof.
  destruct x as [[] [] [] [] [] [] [] []]; vm_compute; auto.
Qed.

(** Under [i] a literal is matched by its two cases only. *)
Lemma chr_match_inv (c x : ascii) :
  chr_match c x = true ->
  x = upper_char c \/ x = lower_char (upper_char c).
Proof.
  unfold chr_match, canon. intros H. apply Ascii.eqb_eq in H.
  rewrite <- H. apply upper_char_cases.
Qed.

Ltac chr_cases H :=
  apply chr_match_inv in H; vm_compute in H; destruct H as [-> | ->].

Ltac inv_matches :=
  repeat match goal with
    | H : matches Eps _ |- _ => inversion H; subst; clear H
    | H : matches (Chr _) _ |- _ => inversion H; subst; clear H
    | H : matches (Seq _ _) _ |- _ => inversion H; subst; clear H
    | H : matches (Opt _) _ |- _ => inversion H; subst; clear H
    end.

Ltac all_chr_cases :=
  repeat match goal with
    | H : chr_match _ _ = true |- _ => chr_cases H
    end.

(** A text matched by [(?:https?:\/\/)?(?:www\.)?word...] that begins
    with [http], for a word that does not, was matched with its
    scheme. *)
Lemma scheme_of_match (word : string) (tail : regex) (m : string) :
  (forall m', matches (Seq (Lit word) tail) m' ->
     startsWith m' "http" = false) ->
  matches (Seq scheme_re (Seq www_re (Seq (Lit word) tail))) m ->
  startsWith m "http" = true ->
  has_scheme m.
Proof.
  intros Hword H Hs.
  inversion H as [| | | r1 r2 m1 m2 H1 H2 | | | |]; subst; clear H.
  unfold scheme_re in H1.
  inversion H1 as [| | | | r | r m Hb | |]; subst; clear H1.
  - (* no scheme *)
    simpl in Hs.
    inversion H2 as [| | | r1 r2 m3 m4 H3 H4 | | | |]; subst; clear H2.
    unfold www_re in H3.
    inversion H3 as [| | | | r | r m Hb | |]; subst; clear H3.
    + simpl in Hs. rewrite (Hword _ H4) in Hs. discriminate.
    + simpl in Hb. inv_matches. unfold startsWith in Hs.
      all_chr_cases; vm_compute in Hs; discriminate.
  - simpl in Hb. inv_matches; unfold startsWith in Hs;
      all_chr_cases; cbn in Hs; try discriminate;
      unfold has_scheme; cbn; eexists; eauto.
Qed.

Lemma word_not_http (c : ascii) (word : string) (tail : regex) (m : string) :
  (forall x, chr_match c x = true -> x <> "h"%char) ->
  matches (Seq (Lit (String c word)) tail) m ->
  startsWith m "http" = false.
Proof.
  intros Hc H. simpl in H.
  inversion H as [| | | r1 r2 m1 m2 H1 H2 | | | |]; subst; clear H.
  inversion H1 as [| | | r1 r2 m3 m4 H3 H4 | | | |]; subst; clear H1.
  inversion H3; subst. unfold startsWith.
  cbn [String.append String.prefix].
  destruct (ascii_dec "h" x) as [<- | ?]; [| reflexivity].
  exfalso. eapply Hc; eauto.
Qed.

Lemma not_h_f (x : ascii) : chr_match "f" x = true -> x <> "h"%char.
Proof. intros H ->. vm_compute in H. discriminate. Qed.

Lemma not_h_i (x : ascii) : chr_match "i" x = true -> x <> "h"%char.
Proof. intros H ->. vm_compute in H. discriminate. Qed.

(** A facebook match that begins with [http] begins with a scheme. *)
Lemma facebook_match_scheme (m : string) :
  matches facebook_re m -> startsWith m "http" = true -> has_scheme m.
Proof.
  apply (scheme_of_match "facebook.com/" (Cat [Plus local_class])).
  intros m'. apply word_not_http, not_h_f.
Qed.

(** The same for an instagram match. *)
Lemma instagram_match_scheme (m : string) :
  matches instagram_re m -> startsWith m "http" = true -> has_scheme m.
Proof.
  apply (scheme_of_match "instagram.com/" (Cat [Plus handle_class])).
  intros m'. apply word_not_http, not_h_i.
Qed.

(** The absolute form of a match begins with a scheme. *)
Lemma absolute_scheme (m : string) :
  (startsWith m "http" = true -> has_scheme m) -> has_scheme (absolute m).
Proof.
  intros H. unfold absolute. destruct (startsWith m "http"); [auto |].
  exists m. right. left. reflexivity.
Qed.

Lemma lower_char_idem (y : ascii) : lower_char (lower_char y) = lower_char y.
Proof.
  destruct y as [[] [] [] [] [] [] [] []]; vm_compute; reflexivity.
Qed.

(** The lower-case form of a character matched by a literal is that of
    the literal. *)
Lemma lower_char_of_match (c x y : ascii) :
  chr_match c x = true -> lower_char (upper_char c) = y ->
  lower_char x = y.
Proof.
  intros H <-. apply chr_match_inv in H. destruct H as [-> | ->].
  - reflexivity.
  - apply lower_char_idem.
Qed.

Lemma toLowerCase_app (a b : string) :
  toLowerCase (a ++ b) = (toLowerCase a ++ toLowerCase b)%string.
Proof.
  induction a as [| x a IH]; simpl; [reflexivity | now rewrite IH].
Qed.

Lemma no_slash_app (a b : string) :
  no_slash (a ++ b) = no_slash a && no_slash b.
Proof.
  induction a as [| x a IH]; simpl; [reflexivity |].
  rewrite IH. now rewrite andb_assoc.
Qed.

Lemma last_slash_has_slash (p : string) :
  last_is_slash p = true -> no_slash p = false.
Proof.
  induction p as [| c p IH]; simpl; [discriminate |].
  destruct p as [| d p'].
  - intros H. now rewrite H.
  - intros H. rewrite (IH H). apply andb_false_r.
Qed.

(** A text without [/] does not begin with a text that has one. *)
Lemma prefix_no_slash (p : string) :
  forall h, no_slash h = true -> no_slash p = false ->
    String.prefix p h = false.
Proof.
  induction p as [| a p IH]; intros h Hh Hp; simpl in Hp; [discriminate |].
  destruct h as [| b h]; [reflexivity |].
  cbn [String.prefix]. destruct (ascii_dec a b) as [<- | ?]; [| reflexivity].
  simpl in Hh. apply andb_true_iff in Hh. destruct Hh as [Hb Hh].
  rewrite Hb in Hp. simpl in Hp. now apply IH.
Qed.

Lemma includes_no_slash (p : string) :
  forall h, no_slash h = true -> no_slash p = false -> includes h p = false.
Proof.
  intros h. induction h as [| b h IH]; intros Hh Hp.
  - cbn [includes]. rewrite prefix_no_slash by assumption. reflexivity.
  - cbn [includes]. rewrite prefix_no_slash by assumption.
    simpl in Hh. apply andb_true_iff in Hh. destruct Hh as [_ Hh].
    simpl. now apply IH.
Qed.

Lemma prefix_empty (s : string) : String.prefix "" s = true.
Proof. destruct s; reflexivity. Qed.

Lemma prefix_app_no_slash (p : string) :
  forall pre h, no_slash h = true ->
    p = "" \/ last_is_slash p = true ->
    String.prefix p (pre ++ h) = String.prefix p pre.
Proof.
  induction p as [| a p IH]; intros pre h Hh Hp.
  - now rewrite !prefix_empty.
  - destruct Hp as [Hp | Hp]; [discriminate |].
    destruct pre as [| b pre].
    + cbn [String.append].
      rewrite prefix_no_slash;
        [reflexivity | assumption | now apply last_slash_has_slash].
    + cbn [String.append String.prefix].
      destruct (ascii_dec a b); [| reflexivity].
      apply IH; [assumption |].
      destruct p as [| d p']; [now left | right; exact Hp].
Qed.

(** A text that ends in [/] occurs in [pre ++ h], for [h] without [/],
    only where it occurs in [pre]. *)
Lemma includes_app_no_slash (p pre h : string) :
  no_slash h = true -> last_is_slash p = true ->
  includes (pre ++ h) p = includes pre p.
Proof.
  intros Hh Hp. induction pre as [| b pre IH].
  - cbn [String.append]. rewrite includes_no_slash;
      [| assumption | now apply last_slash_has_slash].
    destruct p; [discriminate Hp | reflexivity].
  - cbn [String.append includes].
    change (String b (pre ++ h))%string with ((String b pre) ++ h)%string.
    rewrite prefix_app_no_slash by auto. now rewrite IH.
Qed.

Lemma prefix_lower (p : string) :
  forall s, String.prefix p s = true ->
    String.prefix (toLowerCase p) (toLowerCase s) = true.
Proof.
  induction p as [| a p IH]; intros s H; [apply prefix_empty |].
  destruct s as [| b s]; [discriminate H |].
  cbn [String.prefix] in H. destruct (ascii_dec a b) as [<- | ?];
    [| discriminate H].
  cbn [toLowerCase String.prefix].
  destruct (ascii_dec (lower_char a) (lower_char a)); [auto | congruence].
Qed.

(** A lower-case text that occurs in a text occurs in its lower-case
    form. *)
Lemma includes_lower (p s : string) :
  toLowerCase p = p -> includes s p = true ->
  includes (toLowerCase s) p = true.
Proof.
  intros Hp. induction s as [| b s IH]; cbn [includes]; intros H.
  - exact H.
  - apply orb_true_iff in H. cbn [toLowerCase includes].
    destruct H as [H | H].
    + apply prefix_lower in H. rewrite Hp in H.
      cbn [toLowerCase] in H. now rewrite H.
    + rewrite (IH H). apply orb_true_r.
Qed.

(** A character of a handle is not [/], in either case. *)
Lemma handle_char_no_slash (x : ascii) :
  cls_match [("a", "z"); ("A", "Z"); ("0", "9"); one "."; one "_"]%char x
    = true ->
  negb (Ascii.eqb (lower_char x) "/") = true.
Proof.
  destruct x as [[] [] [] [] [] [] [] []]; vm_compute; intros H;
    first [reflexivity | discriminate H].
Qed.

Lemma handle_no_slash (r : regex) (h : string) :
  matches r h -> r = Star handle_class ->
  no_slash (toLowerCase h) = true.
Proof.
  intros H. induction H; intros E; try discriminate E.
  - reflexivity.
  - inversion E; subst. rewrite toLowerCase_app, no_slash_app.
    rewrite IHmatches2 by reflexivity. rewrite andb_true_r.
    inversion H; subst. cbn [toLowerCase no_slash].
    rewrite handle_char_no_slash by assumption. reflexivity.
Qed.

Ltac lower_matched :=
  repeat match goal with
    | H : chr_match ?c ?x = true |- _ =>
        let y := eval vm_compute in (lower_char (upper_char c)) in
        rewrite (lower_char_of_match c x y H eq_refl); clear H
    end.

Ltac pick_prefix p :=
  exists p; eexists; split; [reflexivity |].

(** In lower case an instagram match is one of six beginnings followed
    by a handle, which has no [/]. *)
Lemma instagram_match_shape (m : string) :
  matches instagram_re m ->
  exists pre h,
    toLowerCase m = (pre ++ h)%string /\ no_slash h = true /\
    In pre ["instagram.com/"; "www.instagram.com/";
            "http://instagram.com/"; "http://www.instagram.com/";
            "https://instagram.com/"; "https://www.instagram.com/"].
Proof.
  intros H. unfold instagram_re, scheme_re, www_re, Plus in H.
  cbn [Cat Lit] in H. inv_matches;
    match goal with
    | Hc : matches handle_class _ |- _ => inversion Hc; subst; clear Hc
    end;
    match goal with
    | Hs : matches (Star handle_class) ?hs |- _ =>
        pose proof (handle_no_slash _ _ Hs eq_refl) as Hh
    end;
    rewrite ?append_empty_r; cbn [String.append toLowerCase];
    lower_matched;
    first [ pick_prefix "instagram.com/"
          | pick_prefix "www.instagram.com/"
          | pick_prefix "http://instagram.com/"
          | pick_prefix "http://www.instagram.com/"
          | pick_prefix "https://instagram.com/"
          | pick_prefix "https://www.instagram.com/" ];
    (split;
     [ cbn [no_slash]; rewrite handle_char_no_slash by assumption;
       exact Hh
     | simpl; tauto ]).
Qed.

Ltac no_occurrence Hshape Hh :=
  match goal with
  | |- negb (includes ?link ?pat) = true =>
      destruct (includes link pat) eqn:E; [| reflexivity];
      apply (includes_lower pat link eq_refl) in E;
      rewrite Hshape in E;
      rewrite includes_app_no_slash in E by (exact Hh || reflexivity);
      vm_compute in E; discriminate E
  end.

(** The profile filter passes every raw link found on a page: a match
    of the pattern stops before a second [/] after the host, so no raw
    link contains [/p/], [/reel/], [/tv/] or [/stories/]. *)
Lemma raw_links_pass_profile_filter (html link : string) :
  In link (instagramLinks html) -> profile_filter link = true.
Proof.
  unfold instagramLinks. rewrite new_Set_In, in_map_iff.
  intros [m [<- Hm]]. apply match_all_sound in Hm.
  destruct (instagram_match_shape m Hm) as [pre [h [Hs [Hh Hpre]]]].
  assert (Hl : exists pre', toLowerCase (absolute m) = (pre' ++ h)%string /\
            (pre' = pre \/ pre' = ("https://" ++ pre)%string)).
  { unfold absolute. destruct (startsWith m "http").
    - exists pre. auto.
    - exists ("https://" ++ pre)%string. split; [| auto].
      rewrite toLowerCase_app, Hs. now rewrite append_assoc. }
  destruct Hl as [pre' [Hl Hp']].
  unfold profile_filter.
  simpl in Hpre.
  repeat (destruct Hpre as [<- | Hpre]); try destruct Hpre;
    destruct Hp' as [-> | ->];
    repeat (apply andb_true_iff; split); no_occurrence Hl Hh.
Qed.

(** So the mined instagram set is the raw set: the filter removes
    nothing and the fallback to the first raw link is never taken. *)
Lemma mine_instagram_is_raw (html : string) :
  instagram (mine html) = instagramLinks html.
Proof.
  simpl. unfold mine_instagram, select_instagram.
  assert (E : filter profile_filter (instagramLinks html)
              = instagramLinks html).
  { apply forallb_filter_id. apply forallb_forall.
    intros link. apply raw_links_pass_profile_filter. }
  rewrite E. destruct (instagramLinks html); reflexivity.
Qed.

(** C2 (the code departs from the claim): on the page
    [sales[at]example[dot]com info[at]firm[dot]org] the miner emits
    both [sales@example.com] and [info@firm.org]: the rejection rules
    are applied to the emails matched in plain form only, and the
    emails recovered from the [at]/[dot] form are added unfiltered,
    although [sales@example.com] fails the filter. *)
Theorem C2_obfuscated_emails_unfiltered :
  emails (mine "sales[at]example[dot]com info[at]firm[dot]org")
    = ["sales@example.com"; "info@firm.org"] /\
  email_filter "sales@example.com" = false /\
  includes (toLowerCase "sales@example.com") "example" = true.
Proof.
  repeat split; vm_compute; reflexivity.
Qed.

(** C5 (the code departs from the claim): on the page
    [instagram.com/brandname instagram.com/p/xyz] the miner emits the
    profile and, next to it, [https://instagram.com/p], the link of the
    post cut at its second [/]; on the page [instagram.com/p/xyz] it
    emits [https://instagram.com/p], which is not the link of the
    page.  The filter of lines 167-172 rejects the links of posts
    ([https://instagram.com/p/xyz]) but never sees one: the pattern of
    line 163 stops a match before a second [/] after the host, so on
    every page the filter passes every raw link, the mined set is the
    raw set, and the fallback to the first raw link is never taken. *)
Theorem C5_post_links_not_excluded :
  instagram (mine "instagram.com/brandname instagram.com/p/xyz")
    = ["https://instagram.com/brandname"; "https://instagram.com/p"] /\
  instagram (mine "instagram.com/p/xyz") = ["https://instagram.com/p"] /\
  profile_filter "https://instagram.com/p/xyz" = false /\
  profile_filter "https://instagram.com/p" = true /\
  (forall html link,
     In link (instagramLinks html) -> profile_filter link = true) /\
  (forall html, instagram (mine html) = instagramLinks html).
Proof.
  split; [vm_compute; reflexivity |].
  split; [vm_compute; reflexivity |].
  split; [vm_compute; reflexivity |].
  split; [vm_compute; reflexivity |].
  split; [exact raw_links_pass_profile_filter |].
  exact mine_instagram_is_raw.
Qed.



(** C8: for every page content, the facebook set holds no string
    twice; each of its links is the absolute form of a match of the
    pattern; none contains [/login] or [/share]; each begins with a
    scheme, a match that does not begin with [http] having been
    prefixed with [https://]. *)
Theorem C8_facebook_links (html : string) :
  NoDup (facebook (mine html)) /\
  forall link, In link (facebook (mine html)) ->
    includes link "/login" = false /\
    includes link "/share" = false /\
    has_scheme link /\
    exists m, In m (match_all facebook_re html) /\
      link = absolute m /\
      (startsWith m "http" = false -> link = ("https://" ++ m)%string).
Proof.
  simpl. unfold mine_facebook. split; [apply new_Set_NoDup |].
  intros link H. rewrite new_Set_In, filter_In, in_map_iff in H.
  destruct H as [[m [<- Hm]] Hf].
  unfold facebook_filter in Hf. apply andb_true_iff in Hf.
  destruct Hf as [H1 H2].
  apply negb_true_iff in H1. apply negb_true_iff in H2.
  repeat split; try assumption.
  - apply absolute_scheme, facebook_match_scheme.
    eapply match_all_sound; eauto.
  - exists m. repeat split; [assumption |].
    intros E. unfold absolute. now rewrite E.
Qed.

(** However often a login link occurs on a page, it is not emitted. *)
Example facebook_login_excluded :
  facebook (mine "facebook.com/login https://www.facebook.com/login facebook.com/acme http://facebook.com/sharer/x FACEBOOK.COM/login")
    = ["https://facebook.com/acme"].
Proof. vm_compute. reflexivity. Qed.

End MinerFacts.

(* ================================================================== *)
(** * Website enrichment *)
(* ================================================================== *)

Section EnrichFacts.
Import JS Miner Enrich.

Variable extractPage : string -> option ContactBundle.
Variable findInternalPages : string -> list string.

Lemma insufficient_iff (b : ContactBundle) :
  negb (sufficient b) =
  is_empty (emails b) || is_empty (facebook b) || is_empty (instagram b).
Proof.
  unfold sufficient.
  destruct (is_empty (emails b)), (is_empty (facebook b)),
    (is_empty (instagram b)); reflexivity.
Qed.

Lemma contributed_nil field e : ~ contributed extractPage field [] e.
Proof. intros [u [info [[] _]]]. Qed.

Lemma contributed_cons field u pages e :
  contributed extractPage field (u :: pages) e <->
  (exists info, extractPage u = Some info /\ In e (field info)) \/
  contributed extractPage field pages e.
Proof.
  unfold contributed. split.
  - intros [v [info [[<- | Hin] [H1 H2]]]]; [left | right]; eauto.
  - intros [[info [H1 H2]] | [v [info [Hin [H1 H2]]]]].
    + exists u, info. simpl. auto.
    + exists v, info. simpl. auto.
Qed.

Ltac field_step E :=
  unfold visit_internal;
  match goal with
  | |- context [extractPage ?u] =>
      destruct (extractPage u) as [info |] eqn:E; simpl
  end;
  [ rewrite new_Set_In, in_app_iff; split;
    [ intros [[H | H] | H]; eauto
    | intros [H | [[i [Hi1 Hi2]] | H]]; auto;
      inversion Hi1; subst; auto ]
  | split;
    [ intros [H | H]; auto
    | intros [H | [[i [Hi1 _]] | H]]; auto; discriminate ] ].

(** The loop over the internal pages calls [extractFromPage] on each of
    them in turn, and leaves in each field the elements it had and
    those of the pages mined without failure. *)
Lemma visit_all (pages : list string) :
  forall acc : progress,
    let r := fold_left (visit_internal extractPage) pages acc in
    snd r = snd acc ++ pages /\
    (forall e, In e (emails (fst r)) <->
       In e (emails (fst acc)) \/ contributed extractPage emails pages e) /\
    (forall e, In e (facebook (fst r)) <->
       In e (facebook (fst acc)) \/
       contributed extractPage facebook pages e) /\
    (forall e, In e (instagram (fst r)) <->
       In e (instagram (fst acc)) \/
       contributed extractPage instagram pages e).
Proof.
  induction pages as [| u pages IH]; intros acc; simpl.
  - rewrite app_nil_r.
    repeat split; auto; intros [H | H]; auto;
      now apply contributed_nil in H.
  - specialize (IH (visit_internal extractPage acc u)).
    simpl in IH. destruct IH as [Hlog [He [Hf Hi]]].
    split; [| split; [| split]].
    + rewrite Hlog. unfold visit_internal.
      destruct (extractPage u); simpl; now rewrite <- app_assoc.
    + intros e. rewrite He, contributed_cons. field_step E.
    + intros e. rewrite Hf, contributed_cons. field_step E.
    + intros e. rewrite Hi, contributed_cons. field_step E.
Qed.

End EnrichFacts.

Section EnrichClaims.
Import JS Miner Enrich.

(** With the browser session working, the call returns the bundle of
    the pages mined; it throws only when the launch or the close
    does. *)
Lemma extractContactInfoFromWebsite_returns
    (extractPage : string -> option ContactBundle)
    (findInternalPages : string -> list string)
    (session : Session) (url : string) (visitInternalPages : bool) :
  (launches session = true -> opens session = true ->
   closes session = true ->
   extractContactInfoFromWebsite extractPage findInternalPages session
     url visitInternalPages
   = Some (fst (mine_site extractPage findInternalPages url
                  visitInternalPages))) /\
  (extractContactInfoFromWebsite extractPage findInternalPages session
     url visitInternalPages = None <->
   launches session = false \/ closes session = false).
Proof.
  unfold extractContactInfoFromWebsite. split.
  - intros -> -> ->. reflexivity.
  - destruct (launches session), (closes session); split;
      try discriminate; auto; intros [H | H]; discriminate H.
Qed.

(** In the program the mining of a page never throws: a page that
    cannot be rendered gives the empty bundle. *)
Lemma program_extractPage_total (render : string -> option string)
    (u : string) :
  exists info, program_extractPage render u = Some info /\
    (render u = None -> info = empty_bundle).
Proof.
  unfold program_extractPage. eexists. split; [reflexivity |].
  intros ->. reflexivity.
Qed.

(** C6 (as stated, refuted): with [visitInternalPages] false, an empty
    homepage bundle and a candidate page, no internal page is mined
    although the bundle is not sufficient. *)
Lemma C6_counterexample :
  ~ visits_iff_insufficient
      (fun _ => Some empty_bundle)
      (fun _ => ["https://acme.test/contact"])
      "https://acme.test/" false.
Proof.
  intros H.
  specialize (H empty_bundle eq_refl).
  destruct H as [_ H]; [discriminate |].
  apply H; reflexivity.
Qed.

(** C6 (amended): when the homepage is mined without failure, it is
    mined first; internal pages are mined if and only if
    [visitInternalPages] is set and the homepage bundle is not
    sufficient (one of emails, facebook, instagram is empty), and then
    they are the first three candidates at most; every field of the
    bundle returned holds the elements of the homepage bundle and those
    of the internal pages mined without failure, a page whose mining
    fails contributing nothing and stopping nothing. *)
Theorem C6_enrichment_policy
    (extractPage : string -> option ContactBundle)
    (findInternalPages : string -> list string)
    (url : string) (visitInternalPages : bool) (home : ContactBundle) :
  extractPage url = Some home ->
  let run := mine_site extractPage findInternalPages url visitInternalPages in
  let visits :=
    internal_visits extractPage findInternalPages url visitInternalPages in
  snd run = url :: visits /\
  visits =
    (if visitInternalPages && negb (sufficient home)
     then firstn 3 (findInternalPages url) else []) /\
  (visits <> [] <->
     visitInternalPages = true /\ sufficient home = false /\
     findInternalPages url <> []) /\
  (length visits <= 3)%nat /\
  (forall e, In e (emails (fst run)) <->
     In e (emails home) \/ contributed extractPage emails visits e) /\
  (forall e, In e (facebook (fst run)) <->
     In e (facebook home) \/ contributed extractPage facebook visits e) /\
  (forall e, In e (instagram (fst run)) <->
     In e (instagram home) \/ contributed extractPage instagram visits e).
Proof.
  intros Hhome run visits.
  assert (Hv : visits =
    (if visitInternalPages && negb (sufficient home)
     then firstn 3 (findInternalPages url) else [])).
  { unfold visits, internal_visits, mine_site. rewrite Hhome.
    rewrite insufficient_iff.
    destruct (visitInternalPages &&
              (is_empty (emails home) || is_empty (facebook home) ||
               is_empty (instagram home))); [| reflexivity].
    set (pages := firstn 3 (findInternalPages url)).
    destruct (visit_all extractPage pages (home, [url])) as [Hlog _].
    simpl in Hlog. rewrite Hlog. reflexivity. }
  assert (Hrun : snd run = url :: visits /\
    (forall e, In e (emails (fst run)) <->
       In e (emails home) \/ contributed extractPage emails visits e) /\
    (forall e, In e (facebook (fst run)) <->
       In e (facebook home) \/ contributed extractPage facebook visits e) /\
    (forall e, In e (instagram (fst run)) <->
       In e (instagram home) \/
       contributed extractPage instagram visits e)).
  { rewrite Hv. unfold run, mine_site. rewrite Hhome.
    rewrite <- insufficient_iff.
    destruct (visitInternalPages && negb (sufficient home)).
    - set (pages := firstn 3 (findInternalPages url)).
      destruct (visit_all extractPage pages (home, [url])) as [Hlog H].
      simpl in Hlog, H. split; [exact Hlog | exact H].
    - simpl. repeat split; auto; intros [H | H]; auto;
        now apply contributed_nil in H. }
  destruct Hrun as [H1 [H2 [H3 H4]]].
  split; [exact H1 |]. split; [exact Hv |].
  split; [| split; [| split; [exact H2 | split; [exact H3 | exact H4]]]].
  - rewrite Hv. split.
    + intros Hne. destruct visitInternalPages; [| now simpl in Hne].
      destruct (sufficient home); [now simpl in Hne |]. simpl in Hne.
      repeat split. intros E. rewrite E in Hne. now simpl in Hne.
    + intros [-> [-> Hc]]. simpl.
      destruct (findInternalPages url); [congruence | discriminate].
  - rewrite Hv.
    destruct (visitInternalPages && negb (sufficient home));
      [apply firstn_le_length | simpl; lia].
Qed.

Lemma C6_witness :
  site_pages "https://acme.test/" = Some (mkBundle ["info@acme.test"] [] [])
  /\ internal_visits site_pages site_candidates "https://acme.test/" true
      = ["https://acme.test/contact"; "https://acme.test/about";
         "https://acme.test/team"]
  /\ emails (fst (mine_site site_pages site_candidates
                    "https://acme.test/" true))
      = ["info@acme.test"; "team@acme.test"].
Proof.
  split; [reflexivity |].
  pose proof (C6_enrichment_policy site_pages site_candidates
                "https://acme.test/" true
                (mkBundle ["info@acme.test"] [] []) eq_refl) as H.
  simpl in H. destruct H as [_ [Hv _]].
  split; [exact Hv | vm_compute; reflexivity].
Defined.

End EnrichClaims.

(* ================================================================== *)
(** * The discovery loop *)
(* ================================================================== *)

Section ScrollFacts.
Import Maps.

Variable targetCount : number.
Variable feed : nat -> observation.








End ScrollFacts.

Section DiscoveryClaims.
Import JS Miner Maps.

(** One round of the loop. *)
Lemma scroll_from_step (targetCount : number) (feed : nat -> observation)
    (left i lastCount noNew : nat) :
  scroll_from targetCount feed (S left) i lastCount noNew =
  match feed i with
  | NoPanel => mkScroll i [] PanelMissing
  | Crashed => mkScroll i [] Thrown
  | Loaded currentCount =>
      if ge_num (Z.of_nat currentCount) targetCount
      then mkScroll (S i) [] TargetReached
      else if Nat.eqb currentCount lastCount
      then
        if (2 <=? S noNew)%nat
        then mkScroll (S i) [] Stalled
        else with_grace (S i)
               (scroll_from targetCount feed left (S i) currentCount
                  (S noNew))
      else scroll_from targetCount feed left (S i) currentCount 0
  end.
Proof. reflexivity. Qed.


Lemma processed_from_firstn (bound : number) (bs : list Business) :
  forall i, processed_from bound i bs = firstn (iterations bound - i) bs.
Proof.
  induction bs as [| b rest IH]; intros i; simpl.
  - now rewrite firstn_nil.
  - destruct bound as [z |]; simpl; [| reflexivity].
    destruct (Z.of_nat i <? z)%Z eqn:E.
    + apply Z.ltb_lt in E.
      replace (Z.to_nat z - i)%nat with (S (Z.to_nat z - S i))%nat by lia.
      simpl. f_equal. rewrite IH. reflexivity.
    + apply Z.ltb_ge in E.
      replace (Z.to_nat z - i)%nat with 0%nat by lia. reflexivity.
Qed.

(** The rows of a run are those of the stubs reached, each from its own
    stub and steps. *)
Lemma process_from_rows (bound : number) (steps : nat -> Steps)
    (bs : list Business) :
  forall i, process_from bound steps i bs
            = rows_of steps i (processed_from bound i bs).
Proof.
  induction bs as [| b rest IH]; intros i; simpl; [reflexivity |].
  destruct (lt_num (Z.of_nat i) bound); [| reflexivity].
  rewrite IH. reflexivity.
Qed.

Lemma processed_prefix (bs : list Business) (targetCount : number) :
  processed bs targetCount
  = firstn (iterations (loop_bound bs targetCount)) bs.
Proof.
  unfold processed. rewrite processed_from_firstn. now rewrite Nat.sub_0_r.
Qed.





(** A run on a feed constant at 5 with a target of 10. *)
Example scroll_stalled_feed :
  scroll (Num 10) (fun _ => Loaded 5) = mkScroll 3 [2] Stalled /\
  waited (Num 10) (scroll (Num 10) (fun _ => Loaded 5)) = 39000%Z.
Proof. split; reflexivity. Qed.

(** C4 (as stated, refuted): two anchors with the same link are both
    processed; and with a target of -3, which passes the validation of
    the request, no listing is processed, where min(1, -3) is -3. *)
Lemma C4_counterexample :
  ~ distinct_links
      (processed [mkBusiness "Cafe Uno" "https://maps.test/place/1";
                  mkBusiness "Cafe Uno" "https://maps.test/place/1"]
                 (Num 2)) /\
  Z.of_nat (length (processed
                      [mkBusiness "Cafe Uno" "https://maps.test/place/1"]
                      (Num (-3))))
    <> Z.min 1 (-3).
Proof.
  split.
  - unfold distinct_links. vm_compute. intros H.
    inversion H as [| x l Hx Hl]; subst. apply Hx. now left.
  - vm_compute. discriminate.
Qed.

(** C4 (amended): the stubs processed are the first anchors of the
    page, in its order and with no removal of duplicates: as many as
    there are indices below min(loadedCount, targetCount).  For a
    target of at least 0 their number is min(loadedCount, targetCount);
    for a negative target or [NaN] there is none. *)
Theorem C4_processed_is_prefix (bs : list Business) (targetCount : number) :
  processed bs targetCount
    = firstn (iterations (loop_bound bs targetCount)) bs /\
  (forall t, targetCount = Num t -> (0 <= t)%Z ->
     processed bs targetCount = firstn (Z.to_nat t) bs /\
     Z.of_nat (length (processed bs targetCount))
       = Z.min (Z.of_nat (length bs)) t) /\
  (forall t, targetCount = Num t -> (t < 0)%Z ->
     processed bs targetCount = []) /\
  (targetCount = NaN -> processed bs targetCount = []).
Proof.
  split; [apply processed_prefix |].
  split; [| split].
  - intros t -> Ht. rewrite processed_prefix. unfold loop_bound. simpl.
    assert (E : firstn (Z.to_nat (Z.min (Z.of_nat (length bs)) t)) bs
                = firstn (Z.to_nat t) bs).
    { destruct (Z.le_gt_cases t (Z.of_nat (length bs))) as [H | H].
      - rewrite Z.min_r by lia. reflexivity.
      - rewrite Z.min_l by lia. rewrite Nat2Z.id.
        rewrite firstn_all. symmetry. apply firstn_all2. lia. }
    rewrite E. split; [reflexivity |].
    rewrite length_firstn. lia.
  - intros t -> Ht. rewrite processed_prefix. unfold loop_bound. simpl.
    replace (Z.to_nat (Z.min (Z.of_nat (length bs)) t)) with 0%nat by lia.
    reflexivity.
  - intros ->. rewrite processed_prefix. reflexivity.
Qed.

(** Three anchors and a target of 2. *)
Lemma C4_witness :
  processed [mkBusiness "a" "l1"; mkBusiness "b" "l2"; mkBusiness "c" "l3"]
            (Num 2)
  = [mkBusiness "a" "l1"; mkBusiness "b" "l2"].
Proof.
  destruct (C4_processed_is_prefix
              [mkBusiness "a" "l1"; mkBusiness "b" "l2";
               mkBusiness "c" "l3"] (Num 2)) as [_ [H _]].
  destruct (H 2%Z eq_refl ltac:(lia)) as [E _]. exact E.
Defined.

End DiscoveryClaims.

(* ================================================================== *)
(** * The loop over the listings *)
(* ================================================================== *)

Section ListingClaims.
Import JS Miner Maps.

Ltac steps_cases o :=
  destruct o as [np sr gt ph ws rr en cl];
  destruct np, sr, gt, ph as [ph |], ws as [ws |], rr as [rr |], cl.

(** C9 (as stated, refuted): the page opens, the fields are read, the
    enrichment of the website throws: a step has failed, and the one
    record emitted keeps the phone, the website, the rating and the
    reviews; the all-empty record is not emitted. *)
Lemma C9_counterexample :
  ~ empty_record_on_failure
      (mkBusiness "Cafe Uno" "https://maps.test/place/1")
      (mkSteps true true true (Some "555 0100")
         (Some "https://uno.test/") (Some ("4.5", "120")) None true).
Proof.
  unfold empty_record_on_failure. intros H.
  specialize (H eq_refl). simpl in H.
  destruct H as [H | []]. discriminate H.
Qed.

(** C9 (amended): the rows of a run are those of the stubs reached,
    each computed from its own stub and steps alone, so a failure on
    one listing leaves the others as they are.  A listing always gives
    a record, and every record of it carries its name and maps link.
    When a step that the handler of the listing catches fails (opening
    the page, the navigation, reading a field, closing the page), the
    record with phone, website, rating, reviews, emails, facebook and
    instagram all empty is emitted.  When no such step fails the one
    record emitted holds the fields read, with an empty contact bundle
    if the enrichment of the website throws. *)
Theorem C9_listing_failures_isolated (targetCount : number)
    (steps : nat -> Steps) (bs : list Business) :
  process_from (loop_bound bs targetCount) steps 0 bs
    = rows_of steps 0 (processed bs targetCount) /\
  forall b o,
    process_listing b o <> [] /\
    (forall r, In r (process_listing b o) ->
       lead_name r = name b /\ maps_link r = link b) /\
    (listing_failed o = true ->
       In (empty_record b) (process_listing b o)) /\
    (listing_failed o = false ->
       exists ph site rr,
         phone_found o = Some ph /\ website_found o = Some site /\
         rating_found o = Some rr /\
         process_listing b o
           = [full_record b ph site rr (contact_info site o)]) /\
    (enrichment_failed o = true ->
       forall site, website_found o = Some site ->
         contact_info site o = empty_bundle) /\
    (enrichment_failed o = true -> listing_failed o = false ->
       exists ph site rr,
         site <> "" /\
         process_listing b o
           = [mkLead (name b) (link b) ph site (fst rr) (snd rr)
                "" "" ""]).
Proof.
  split; [apply process_from_rows |].
  intros b o. split; [| split; [| split; [| split; [| split]]]].
  - steps_cases o; discriminate.
  - intros r. steps_cases o; simpl;
      intros H; repeat (destruct H as [<- | H]); try destruct H;
      split; reflexivity.
  - steps_cases o; simpl; intros H; try discriminate H; auto.
  - steps_cases o; simpl; intros H; try discriminate H.
    exists ph, ws, rr. repeat split.
  - unfold enrichment_failed, contact_info. intros H site Hs.
    rewrite Hs in H. destruct site; [reflexivity |].
    destruct (enriched o); [discriminate | reflexivity].
  - unfold enrichment_failed. steps_cases o; simpl; intros He Hl;
      try discriminate Hl; try discriminate He.
    destruct ws as [| c ws]; [discriminate He |].
    destruct en as [info |]; [discriminate He |].
    exists ph, (String c ws), rr. split; [discriminate | reflexivity].
Qed.

(** A run over three stubs, a target of 3: the navigation to the second
    listing fails, the page of the third does not close. *)
Example rows_with_failures :
  let a := mkBusiness "A" "https://maps.test/a" in
  let b := mkBusiness "B" "https://maps.test/b" in
  let c := mkBusiness "C" "https://maps.test/c" in
  let fine := mkSteps true true true (Some "555 0100") (Some "")
                (Some ("4.5", "120")) None true in
  let steps := fun i =>
    match i with
    | 1 => mkSteps true true false None None None None true
    | 2 => mkSteps true true true (Some "555 0100") (Some "")
             (Some ("4.5", "120")) None false
    | _ => fine
    end in
  process_from (loop_bound [a; b; c] (Num 3)) steps 0 [a; b; c]
  = [mkLead "A" "https://maps.test/a" "555 0100" "" "4.5" "120" "" "" "";
     empty_record b;
     mkLead "C" "https://maps.test/c" "555 0100" "" "4.5" "120" "" "" "";
     empty_record c].
Proof. reflexivity. Qed.

End ListingClaims.

(* ================================================================== *)
(** * The job state machine *)
(* ================================================================== *)

Section JobFacts.
Import Maps Job.

Variable parseInt : jsval -> number.

Lemma post_scrape_invalid (now stamp : Z) (body : Body)
    (st : ProcessingState) :
  valid body = false ->
  post_scrape parseInt now stamp body st = (BadRequest, st, None).
Proof.
  unfold valid, post_scrape. intros H.
  destruct (truthy (query body)), (truthy (count body));
    try discriminate H; reflexivity.
Qed.



(** Whatever the ending of the pipeline, the state is cleared. *)
Lemma pipeline_done_idle (run : Run) (e : Ending) (st : ProcessingState) :
  fst (pipeline_done run e st) = idle.
Proof.
  unfold pipeline_done.
  destruct (scraped e), (run_query run), (written e); reflexivity.
Qed.




End JobFacts.

Section JobClaims.
Import Maps Job.




(** C10: a start request whose query or count is missing or falsy is
    answered 400 and changes nothing: the state is the one before (idle
    if it was idle), no pipeline is started and no export is written. *)
Theorem C10_invalid_request_rejected (parseInt : jsval -> number)
    (now stamp : Z) (body : Body) :
  truthy (query body) = false \/ truthy (count body) = false ->
  (forall st,
     post_scrape parseInt now stamp body st = (BadRequest, st, None)) /\
  (forall sv,
     step parseInt sv (Request now stamp body) = (sv, Some BadRequest)) /\
  (forall sv, state sv = idle ->
     let sv' := fst (step parseInt sv (Request now stamp body)) in
     state sv' = idle /\ in_flight sv' = in_flight sv /\
     exports sv' = exports sv).
Proof.
  intros H.
  assert (Hv : valid body = false).
  { unfold valid. destruct H as [-> | ->]; [reflexivity |].
    apply andb_false_r. }
  split; [intros st; now apply post_scrape_invalid |].
  assert (Hs : forall sv,
             step parseInt sv (Request now stamp body)
             = (sv, Some BadRequest)).
  { intros sv. simpl. rewrite post_scrape_invalid by assumption.
    destruct sv; reflexivity. }
  split; [exact Hs |].
  intros sv Hi sv'. unfold sv'. rewrite Hs. simpl. auto.
Qed.

(** The bodies the claim names: no query, an empty query, a count of
    zero, no count. *)
Lemma C10_witness :
  (truthy (query (mkBody (JStr "") (JNum 5) JUndefined)) = false \/
   truthy (count (mkBody (JStr "") (JNum 5) JUndefined)) = false) /\
  step (fun _ => Num 5) boot
    (Request 1000 1000 (mkBody (JStr "") (JNum 5) JUndefined))
  = (boot, Some BadRequest).
Proof.
  split; [left; reflexivity |].
  apply (C10_invalid_request_rejected (fun _ => Num 5) 1000%Z 1000%Z
           (mkBody (JStr "") (JNum 5) JUndefined)).
  left. reflexivity.
Defined.

Example falsy_fields :
  truthy JUndefined = false /\ truthy (JStr "") = false /\
  truthy (JNum 0) = false /\ truthy JNull = false /\
  truthy (JStr "0") = true /\ truthy (JNum (-3)) = true.
Proof. repeat split. Qed.

End JobClaims.

(* ================================================================== *)
(** * Further properties: candidate pages and the contact miner *)
(* ================================================================== *)

Section ListFacts.

(** [Array.prototype.find] gives the first element that passes. *)
Lemma find_first {A : Type} (f : A -> bool) (before : list A) (x : A)
    (after : list A) :
  (forall u, In u before -> f u = false) -> f x = true ->
  find f (before ++ x :: after) = Some x.
Proof.
  intros Hb Hx. induction before as [| y before IH]; simpl.
  - now rewrite Hx.
  - rewrite (Hb y) by now left. apply IH. intros u Hu. apply Hb. now right.
Qed.

Lemma find_split {A : Type} (f : A -> bool) (l : list A) (x : A) :
  find f l = Some x ->
  exists before after,
    l = before ++ x :: after /\
    (forall u, In u before -> f u = false) /\ f x = true.
Proof.
  induction l as [| y l IH]; simpl; [discriminate |].
  destruct (f y) eqn:E.
  - intros H. inversion H; subst. exists [], l.
    split; [reflexivity |]. split; [intros u [] | exact E].
  - intros H. destruct (IH H) as [before [after [-> [Hb Hx]]]].
    exists (y :: before), after. split; [reflexivity |].
    split; [| exact Hx]. intros u [<- | Hu]; [exact E | now apply Hb].
Qed.

Lemma In_firstn {A : Type} (n : nat) (l : list A) (x : A) :
  In x (firstn n l) -> In x l.
Proof.
  revert l. induction n as [| n IH]; intros l H; [destruct H |].
  destruct l as [| a l]; [destruct H |].
  simpl in H. destruct H as [<- | H]; [now left | right; auto].
Qed.

Lemma NoDup_firstn {A : Type} (n : nat) (l : list A) :
  NoDup l -> NoDup (firstn n l).
Proof.
  revert l. induction n as [| n IH]; intros l H; [constructor |].
  destruct l as [| a l]; [constructor |].
  inversion H as [| a' l' Ha Hl]; subst. simpl. constructor.
  - intros Hin. apply Ha. eapply In_firstn; eauto.
  - auto.
Qed.

Lemma fold_set_add_length (l acc : list string) :
  (length (fold_left JS.set_add l acc) <= length acc + length l)%nat.
Proof.
  revert acc. induction l as [| x l IH]; intros acc; simpl; [lia |].
  specialize (IH (JS.set_add acc x)).
  assert (length (JS.set_add acc x) <= S (length acc))%nat.
  { unfold JS.set_add. destruct (existsb (String.eqb x) acc); [lia |].
    rewrite length_app. simpl. lia. }
  lia.
Qed.

(** A [Set] has no more elements than it was given. *)
Lemma new_Set_length (l : list string) :
  (length (JS.new_Set l) <= length l)%nat.
Proof.
  unfold JS.new_Set. pose proof (fold_set_add_length l []). simpl in *. lia.
Qed.

(** Insertions into a [Set] leave the elements it has where they are. *)
Lemma fold_set_add_prefix (l acc : list string) :
  exists tail, fold_left JS.set_add l acc = acc ++ tail.
Proof.
  revert acc. induction l as [| x l IH]; intros acc; simpl.
  - exists []. now rewrite app_nil_r.
  - destruct (IH (JS.set_add acc x)) as [tail Ht]. rewrite Ht.
    unfold JS.set_add. destruct (existsb (String.eqb x) acc).
    + now exists tail.
    + exists ([x] ++ tail). now rewrite app_assoc.
Qed.

(** Inserting elements it has leaves a [Set] as it is. *)
Lemma fold_set_add_absorb (l acc : list string) :
  (forall x, In x l -> In x acc) -> fold_left JS.set_add l acc = acc.
Proof.
  induction l as [| x l IH]; intros H; simpl; [reflexivity |].
  assert (E : JS.set_add acc x = acc).
  { unfold JS.set_add.
    destruct (existsb (String.eqb x) acc) eqn:Ex; [reflexivity |].
    assert (Hin : In x acc) by (apply H; now left).
    apply existsb_eqb_In in Hin. congruence. }
  rewrite E. apply IH. intros y Hy. apply H. now right.
Qed.

Lemma fold_set_add_app (l acc : list string) :
  NoDup (acc ++ l) -> fold_left JS.set_add l acc = acc ++ l.
Proof.
  revert acc. induction l as [| x l IH]; intros acc H; simpl.
  - now rewrite app_nil_r.
  - assert (Hx : ~ In x acc).
    { apply NoDup_remove_2 in H. intros Hin. apply H.
      apply in_or_app. now left. }
    assert (E : JS.set_add acc x = acc ++ [x]).
    { unfold JS.set_add.
      destruct (existsb (String.eqb x) acc) eqn:Ex; [| reflexivity].
      apply existsb_eqb_In in Ex. contradiction. }
    rewrite E. rewrite IH; rewrite <- app_assoc; [reflexivity | exact H].
Qed.

(** The [Set] of a list without repetition is the list. *)
Lemma new_Set_NoDup_id (l : list string) : NoDup l -> JS.new_Set l = l.
Proof.
  intros H. unfold JS.new_Set. now rewrite fold_set_add_app.
Qed.

Lemma new_Set_app (a b : list string) :
  JS.new_Set (a ++ b) = fold_left JS.set_add b (JS.new_Set a).
Proof.
  unfold JS.new_Set. now rewrite fold_left_app.
Qed.

End ListFacts.

Section DiscoverFacts.
Import JS Miner Enrich Discover.

Variable hostname : string -> option string.

Lemma findInternalPages_NoDup (dom : option (list string))
    (baseUrl : string) :
  NoDup (findInternalPages hostname dom baseUrl).
Proof.
  unfold findInternalPages. destruct dom; [| constructor].
  destruct (hostname baseUrl); [apply new_Set_NoDup | constructor].
Qed.

Lemma findInternalPages_In (dom : option (list string))
    (baseUrl u : string) :
  In u (findInternalPages hostname dom baseUrl) ->
  exists hrefs baseHost,
    dom = Some hrefs /\ hostname baseUrl = Some baseHost /\
    In u hrefs /\
    In u (firstn 5 (filter (candidate hostname baseHost) hrefs)) /\
    hostname u = Some baseHost /\
    exists keyword, In keyword keywords /\
      includes (toLowerCase u) keyword = true.
Proof.
  unfold findInternalPages. destruct dom as [hrefs |]; [| intros []].
  destruct (hostname baseUrl) as [baseHost |] eqn:Eb; [| intros []].
  intros Hu. apply (proj1 (new_Set_In _ _)) in Hu.
  exists hrefs, baseHost. split; [reflexivity |]. split; [reflexivity |].
  pose proof (In_firstn _ _ _ Hu) as Hf. apply filter_In in Hf.
  destruct Hf as [Hin Hc]. split; [exact Hin |]. split; [exact Hu |].
  unfold candidate in Hc. destruct (hostname u) as [host |]; [| discriminate].
  apply andb_true_iff in Hc. destruct Hc as [Hh Hk].
  apply String.eqb_eq in Hh. subst host. split; [reflexivity |].
  apply existsb_exists in Hk. exact Hk.
Qed.

(** X1: the candidate pages are at most 5 and without repetition; each
    is the target of an anchor of the homepage, among the first five
    that pass the filter, parses to the host of the site and contains
    one of the six keywords in some letter case.  When the page cannot
    be read or the address of the site does not parse there is no
    candidate. *)
Theorem X1_findInternalPages_candidates (dom : option (list string))
    (baseUrl : string) :
  let pages := findInternalPages hostname dom baseUrl in
  (length pages <= 5)%nat /\
  NoDup pages /\
  (forall u, In u pages ->
     exists hrefs baseHost,
       dom = Some hrefs /\ hostname baseUrl = Some baseHost /\
       In u hrefs /\
       In u (firstn 5 (filter (candidate hostname baseHost) hrefs)) /\
       hostname u = Some baseHost /\
       exists keyword, In keyword keywords /\
         includes (toLowerCase u) keyword = true) /\
  (dom = None \/ hostname baseUrl = None -> pages = []).
Proof.
  intros pages.
  split; [| split; [apply findInternalPages_NoDup |
                    split; [apply findInternalPages_In |]]].
  - unfold pages, findInternalPages. destruct dom; [| simpl; lia].
    destruct (hostname baseUrl); [| simpl; lia].
    etransitivity; [apply new_Set_length |]. apply firstn_le_length.
  - unfold pages, findInternalPages. intros [-> | H]; [reflexivity |].
    rewrite H. destruct dom; reflexivity.
Qed.

(** The internal pages mined. *)
Lemma internal_visits_cases
    (extractPage : string -> option ContactBundle)
    (findPages : string -> list string) (url : string) (visit : bool) :
  internal_visits extractPage findPages url visit = [] \/
  internal_visits extractPage findPages url visit
    = firstn 3 (findPages url).
Proof.
  unfold internal_visits, mine_site.
  destruct (extractPage url) as [home |]; [| now left].
  destruct (visit && _); [| now left].
  right. set (pages := firstn 3 (findPages url)).
  destruct (visit_all extractPage pages (home, [url])) as [Hlog _].
  simpl in Hlog. rewrite Hlog. reflexivity.
Qed.

(** X2: with the candidates found by [findInternalPages], the
    enrichment of a site mines at most 3 internal pages, no page twice,
    and each of them is on the host of the site and contains a
    keyword: it never leaves the site. *)
Theorem X2_enrichment_stays_on_site
    (extractPage : string -> option ContactBundle)
    (dom : string -> option (list string))
    (url : string) (visitInternalPages : bool) :
  let visits :=
    internal_visits extractPage
      (fun u => findInternalPages hostname (dom u) u)
      url visitInternalPages in
  (length visits <= 3)%nat /\
  NoDup visits /\
  forall u, In u visits ->
    hostname u = hostname url /\ hostname u <> None /\
    exists keyword, In keyword keywords /\
      includes (toLowerCase u) keyword = true.
Proof.
  intros visits.
  destruct (internal_visits_cases extractPage
              (fun u => findInternalPages hostname (dom u) u)
              url visitInternalPages) as [E | E];
    fold visits in E; rewrite E.
  - split; [simpl; lia |]. split; [constructor | intros u []].
  - split; [apply firstn_le_length |].
    split; [apply NoDup_firstn, findInternalPages_NoDup |].
    intros u Hu. apply In_firstn in Hu.
    destruct (findInternalPages_In _ _ _ Hu)
      as [hrefs [baseHost [_ [Hb [_ [_ [Hh Hk]]]]]]].
    rewrite Hh, Hb. split; [reflexivity |]. split; [discriminate | exact Hk].
Qed.

End DiscoverFacts.

Section MinerExtras.
Import JS RegExp Miner Enrich.

(** A match of [r{2,}] for a class [r] has two characters at least. *)
Lemma at_least_two (items : list (ascii * ascii)) (t : string) :
  matches (AtLeast2 (Cls items)) t -> (2 <= String.length t)%nat.
Proof.
  unfold AtLeast2. intros H.
  inversion H as [| | | r1 r2 m1 m2 H1 H2 | | | |]; subst; clear H.
  inversion H2 as [| | | r1 r2 m3 m4 H3 H4 | | | |]; subst; clear H2.
  inversion H1; subst. inversion H3; subst. simpl. lia.
Qed.

Lemma plus_nonempty (items : list (ascii * ascii)) (m : string) :
  matches (Plus (Cls items)) m -> m <> "".
Proof.
  unfold Plus. intros H.
  inversion H as [| | | r1 r2 m1 m2 H1 H2 | | | |]; subst; clear H.
  inversion H1; subst. discriminate.
Qed.

Lemma chr_at (x : ascii) : chr_match "@" x = true -> x = "@"%char.
Proof.
  intros H. apply chr_match_inv in H. vm_compute in H. tauto.
Qed.

Lemma chr_dot (x : ascii) : chr_match "." x = true -> x = "."%char.
Proof.
  intros H. apply chr_match_inv in H. vm_compute in H. tauto.
Qed.

(** A match of the email pattern is [local@domain.tld], the three
    parts not empty and the last of two characters at least. *)
Lemma email_match_shape (e : string) :
  matches email_re e ->
  exists l d t,
    e = (l ++ "@" ++ d ++ "." ++ t)%string /\
    l <> "" /\ d <> "" /\ (2 <= String.length t)%nat.
Proof.
  unfold email_re. cbn [Cat]. intros H.
  inversion H as [| | | r1 r2 l m2 Hl H2 | | | |]; subst; clear H.
  inversion H2 as [| | | r1 r2 a m3 Ha H3 | | | |]; subst; clear H2.
  inversion H3 as [| | | r1 r2 d m4 Hd H4 | | | |]; subst; clear H3.
  inversion H4 as [| | | r1 r2 p m5 Hp H5 | | | |]; subst; clear H4.
  inversion H5 as [| | | r1 r2 t m6 Ht H6 | | | |]; subst; clear H5.
  inversion H6; subst. inversion Ha; subst. inversion Hp; subst.
  match goal with Hx : chr_match "@" _ = true |- _ => apply chr_at in Hx; subst end.
  match goal with Hx : chr_match "." _ = true |- _ => apply chr_dot in Hx; subst end.
  exists l, d, t. rewrite append_empty_r.
  split; [reflexivity |].
  split; [eapply plus_nonempty; eauto |].
  split; [eapply plus_nonempty; eauto |].
  eapply at_least_two; eauto.
Qed.

(** X3: every email the miner emits was recovered from the [at]/[dot]
    form, or is a match of the plain pattern, of the form
    [local@domain.tld] with a [tld] of two characters at least, that
    passes the rejection filter; and every email recovered from the
    [at]/[dot] form is emitted, whatever it is. *)
Theorem X3_emitted_emails (html e : string) :
  (In e (emails (mine html)) ->
     In e (obfuscatedEmails html) \/
     (In e (match_all email_re html) /\ email_filter e = true /\
      exists l d t,
        e = (l ++ "@" ++ d ++ "." ++ t)%string /\
        l <> "" /\ d <> "" /\ (2 <= String.length t)%nat)) /\
  (In e (obfuscatedEmails html) -> In e (emails (mine html))).
Proof.
  simpl. split.
  - intros H. apply mine_emails_In in H. destruct H as [H | H]; [| now left].
    right. unfold plainEmails in H.
    apply (proj1 (new_Set_In _ _)) in H. apply filter_In in H.
    destruct H as [Hm Hf]. split; [exact Hm |]. split; [exact Hf |].
    apply email_match_shape. eapply match_all_sound; eauto.
  - intros H. apply mine_emails_In. now right.
Qed.

(** X4: on every page the profile filter passes every raw instagram
    link, so the mined instagram set is the raw set and the fallback to
    the first raw link is never taken: a match of the pattern stops
    before a second [/] after the host, and no link the miner builds
    contains [/p/], [/reel/], [/tv/] or [/stories/]. *)
Theorem X4_instagram_filter_passes_all (html : string) :
  instagram (mine html) = instagramLinks html /\
  (forall link, In link (instagramLinks html) ->
     profile_filter link = true /\
     includes link "/p/" = false /\ includes link "/reel/" = false /\
     includes link "/tv/" = false /\ includes link "/stories/" = false).
Proof.
  split; [apply mine_instagram_is_raw |].
  intros link H. pose proof (raw_links_pass_profile_filter html link H) as Hp.
  split; [exact Hp |]. unfold profile_filter in Hp.
  repeat (apply andb_true_iff in Hp; destruct Hp as [Hp ?]).
  repeat match goal with
    | Hn : negb _ = true |- _ => apply negb_true_iff in Hn
    end.
  auto.
Qed.

(** X5: the instagram set of a page holds no link twice, and each of
    its links is the absolute form of a match of the pattern and begins
    with [http://], [https://] or [httpS://].  The third form is met:
    the pattern ignores the case of the letters and the test
    [startsWith('http')] does not, so a link written with [httpS://]
    on the page is kept as it is. *)
Theorem X5_instagram_links (html : string) :
  NoDup (instagram (mine html)) /\
  (forall link, In link (instagram (mine html)) ->
     (exists rest,
        link = ("http://" ++ rest)%string \/
        link = ("https://" ++ rest)%string \/
        link = ("httpS://" ++ rest)%string) /\
     exists m, In m (match_all instagram_re html) /\ link = absolute m) /\
  instagram (mine "httpS://instagram.com/acme")
    = ["httpS://instagram.com/acme"].
Proof.
  split; [| split; [| vm_compute; reflexivity]].
  - rewrite mine_instagram_is_raw. apply new_Set_NoDup.
  - rewrite mine_instagram_is_raw. unfold instagramLinks.
    intros link H. apply (proj1 (new_Set_In _ _)) in H.
    apply in_map_iff in H. destruct H as [m [<- Hm]].
    split; [| eauto].
    apply absolute_scheme, instagram_match_scheme.
    eapply match_all_sound; eauto.
Qed.

Lemma mine_fields_NoDup (html : string) :
  NoDup (emails (mine html)) /\ NoDup (facebook (mine html)) /\
  NoDup (instagram (mine html)).
Proof.
  split; [apply new_Set_NoDup |]. split; [apply new_Set_NoDup |].
  rewrite mine_instagram_is_raw. apply new_Set_NoDup.
Qed.

Lemma merge_field_prefix (a b : list string) :
  NoDup a -> exists tail, new_Set (a ++ b) = a ++ tail.
Proof.
  intros H. rewrite new_Set_app, (new_Set_NoDup_id a H).
  apply fold_set_add_prefix.
Qed.

Lemma merge_field_absorb (a b : list string) :
  NoDup a -> (forall x, In x b -> In x a) -> new_Set (a ++ b) = a.
Proof.
  intros H Hb. rewrite new_Set_app, (new_Set_NoDup_id a H).
  now apply fold_set_add_absorb.
Qed.

(** X6: merging a page into the bundle mined from a page keeps the
    entries of the bundle first and in their order, the new entries
    coming after; a page that brings nothing new, as the same content
    mined again or a page that could not be rendered, leaves the bundle
    as it is. *)
Theorem X6_merge_keeps_first (html : string) (internal : ContactBundle) :
  (exists t1 t2 t3,
     merge (mine html) internal
     = mkBundle (emails (mine html) ++ t1) (facebook (mine html) ++ t2)
                (instagram (mine html) ++ t3)) /\
  ((forall x, In x (emails internal) -> In x (emails (mine html))) ->
   (forall x, In x (facebook internal) -> In x (facebook (mine html))) ->
   (forall x, In x (instagram internal) -> In x (instagram (mine html))) ->
   merge (mine html) internal = mine html) /\
  merge (mine html) (mine html) = mine html /\
  merge (mine html) (extractFromPage None) = mine html.
Proof.
  destruct (mine_fields_NoDup html) as [He [Hf Hi]].
  assert (Habs :
    (forall x, In x (emails internal) -> In x (emails (mine html))) ->
    (forall x, In x (facebook internal) -> In x (facebook (mine html))) ->
    (forall x, In x (instagram internal) -> In x (instagram (mine html))) ->
    merge (mine html) internal = mine html).
  { intros H1 H2 H3. unfold merge.
    rewrite (merge_field_absorb _ _ He H1), (merge_field_absorb _ _ Hf H2),
      (merge_field_absorb _ _ Hi H3).
    reflexivity. }
  split; [| split; [exact Habs | split]].
  - destruct (merge_field_prefix _ (emails internal) He) as [t1 E1].
    destruct (merge_field_prefix _ (facebook internal) Hf) as [t2 E2].
    destruct (merge_field_prefix _ (instagram internal) Hi) as [t3 E3].
    exists t1, t2, t3. unfold merge. now rewrite E1, E2, E3.
  - unfold merge.
    rewrite (merge_field_absorb _ _ He), (merge_field_absorb _ _ Hf),
      (merge_field_absorb _ _ Hi); auto.
  - unfold merge, extractFromPage, empty_bundle. cbn [emails facebook instagram].
    rewrite !app_nil_r.
    rewrite (new_Set_NoDup_id _ He), (new_Set_NoDup_id _ Hf),
      (new_Set_NoDup_id _ Hi).
    reflexivity.
Qed.

End MinerExtras.

(* ================================================================== *)
(** * Further properties: the fields of a listing *)
(* ================================================================== *)

Section FieldsFacts.
Import JS RegExp Fields.

Lemma all_chars_app (p : ascii -> bool) (a b : string) :
  all_chars p (a ++ b) = all_chars p a && all_chars p b.
Proof.
  induction a as [| c a IH]; simpl; [reflexivity |].
  now rewrite IH, andb_assoc.
Qed.

Lemma some_char_app (p : ascii -> bool) (a b : string) :
  some_char p (a ++ b) = some_char p a || some_char p b.
Proof.
  induction a as [| c a IH]; simpl; [reflexivity |].
  now rewrite IH, orb_assoc.
Qed.

Lemma keep_all (allowed : ascii -> bool) (s : string) :
  all_chars allowed (keep allowed s) = true.
Proof.
  induction s as [| c s IH]; simpl; [reflexivity |].
  destruct (allowed c) eqn:E; simpl; [now rewrite E |]. exact IH.
Qed.

(** Removing characters leaves those of a class that is kept. *)
Lemma keep_keep (p q : ascii -> bool) (s : string) :
  (forall c, p c = true -> q c = true) ->
  keep p (keep q s) = keep p s.
Proof.
  intros H. induction s as [| c s IH]; simpl; [reflexivity |].
  destruct (q c) eqn:Eq; simpl.
  - now rewrite IH.
  - destruct (p c) eqn:Ep; [| exact IH].
    apply H in Ep. congruence.
Qed.

Lemma some_char_keep (p : ascii -> bool) (s : string) :
  some_char p s = negb (String.eqb (keep p s) "").
Proof.
  induction s as [| c s IH]; simpl; [reflexivity |].
  destruct (p c); simpl; [reflexivity | exact IH].
Qed.

Lemma trimStart_keep (p : ascii -> bool) (s : string) :
  (forall c, p c = true -> is_space c = false) ->
  keep p (trimStart s) = keep p s.
Proof.
  intros H. induction s as [| c s IH]; simpl; [reflexivity |].
  destruct (is_space c) eqn:E; [| reflexivity].
  rewrite IH. destruct (p c) eqn:Ep; [| reflexivity].
  apply H in Ep. congruence.
Qed.

Lemma trimEnd_keep (p : ascii -> bool) (s : string) :
  (forall c, p c = true -> is_space c = false) ->
  keep p (trimEnd s) = keep p s.
Proof.
  intros H. induction s as [| c s IH]; simpl; [reflexivity |].
  destruct (trimEnd s) as [| d t] eqn:Et.
  - simpl in IH. destruct (is_space c) eqn:E; simpl.
    + destruct (p c) eqn:Ep; [| exact IH]. apply H in Ep. congruence.
    + destruct (p c); [now rewrite <- IH | exact IH].
  - cbn [keep]. destruct (p c); [now rewrite <- IH | exact IH].
Qed.

(** Trimming removes white space only. *)
Lemma trim_keep (p : ascii -> bool) (s : string) :
  (forall c, p c = true -> is_space c = false) ->
  keep p (trim s) = keep p s.
Proof.
  intros H. unfold trim. now rewrite trimEnd_keep, trimStart_keep.
Qed.

Lemma trimStart_all (p : ascii -> bool) (s : string) :
  all_chars p s = true -> all_chars p (trimStart s) = true.
Proof.
  induction s as [| c s IH]; simpl; [reflexivity |]. intros H.
  apply andb_true_iff in H. destruct H as [Hc Hs].
  destruct (is_space c); [auto | simpl; now rewrite Hc, Hs].
Qed.

Lemma trimEnd_all (p : ascii -> bool) (s : string) :
  all_chars p s = true -> all_chars p (trimEnd s) = true.
Proof.
  induction s as [| c s IH]; simpl; [reflexivity |]. intros H.
  apply andb_true_iff in H. destruct H as [Hc Hs]. specialize (IH Hs).
  destruct (trimEnd s) as [| d t].
  - destruct (is_space c); simpl; [reflexivity | now rewrite Hc].
  - cbn [all_chars] in *. now rewrite Hc, IH.
Qed.

Lemma trim_all (p : ascii -> bool) (s : string) :
  all_chars p s = true -> all_chars p (trim s) = true.
Proof.
  intros H. unfold trim. now apply trimEnd_all, trimStart_all.
Qed.

Lemma trimStart_first (s : string) : space_first (trimStart s) = false.
Proof.
  induction s as [| c s IH]; simpl; [reflexivity |].
  destruct (is_space c) eqn:E; [exact IH | simpl; exact E].
Qed.

Lemma trimEnd_first (s : string) :
  space_first s = false -> space_first (trimEnd s) = false.
Proof.
  destruct s as [| c s]; simpl; [reflexivity |]. intros H.
  destruct (trimEnd s); [rewrite H |]; simpl; auto.
Qed.

Lemma trimEnd_last (s : string) : space_last (trimEnd s) = false.
Proof.
  induction s as [| c s IH]; simpl; [reflexivity |].
  destruct (trimEnd s) as [| d t] eqn:Et.
  - destruct (is_space c) eqn:E; simpl; [reflexivity | exact E].
  - exact IH.
Qed.

(** A trimmed text neither begins nor ends with white space. *)
Lemma trim_trimmed (s : string) :
  space_first (trim s) = false /\ space_last (trim s) = false.
Proof.
  unfold trim. split; [apply trimEnd_first, trimStart_first |
                       apply trimEnd_last].
Qed.

Lemma exec_prefix (r : regex) (s m : string) :
  exec r s = Some m -> exists s', s = (m ++ s')%string /\ matches r m.
Proof.
  unfold exec. destruct (ends r s) as [| [m0 s0] rest] eqn:E; [discriminate |].
  simpl. intros H. inversion H; subst. exists s0.
  apply (ends_sound r s m s0). rewrite E. now left.
Qed.

(** A text that passes [test] holds a match of the pattern. *)
Lemma test_sound (r : regex) (s : string) :
  test r s = true ->
  exists a m b, s = (a ++ m ++ b)%string /\ matches r m.
Proof.
  induction s as [| c s IH]; simpl.
  - destruct (exec r "") as [m |] eqn:E; [| discriminate]. intros _.
    apply exec_prefix in E. destruct E as [s' [E Hm]].
    exists "", m, s'. auto.
  - destruct (exec r (String c s)) as [m |] eqn:E.
    + intros _. apply exec_prefix in E. destruct E as [s' [E Hm]].
      exists "", m, s'. auto.
    + intros H. destruct (IH H) as [a [m [b [-> Hm]]]].
      exists (String c a), m, b. auto.
Qed.

Lemma test_whole_sound (r : regex) (s : string) :
  test_whole r s = true -> matches r s.
Proof.
  unfold test_whole. intros H. apply existsb_exists in H.
  destruct H as [[m s'] [Hin He]]. simpl in He.
  apply String.eqb_eq in He. subst s'.
  apply ends_sound in Hin. destruct Hin as [-> Hm].
  now rewrite append_empty_r.
Qed.

(** With or without the flag [i], the class of the digits is matched
    by the digits alone. *)
Lemma digit_match (x : ascii) :
  cls_match [("0", "9")%char] x = is_digit x.
Proof.
  destruct x as [[] [] [] [] [] [] [] []]; vm_compute; reflexivity.
Qed.

Lemma digit_is_phone_char (c : ascii) :
  is_digit c = true -> phone_char c = true.
Proof. unfold phone_char. now intros ->. Qed.

Lemma digit_not_space (c : ascii) : is_digit c = true -> is_space c = false.
Proof.
  destruct c as [[] [] [] [] [] [] [] []]; vm_compute; intros H;
    first [reflexivity | discriminate H].
Qed.

Lemma digit_not_paren (c : ascii) : is_digit c = true -> not_paren c = true.
Proof.
  destruct c as [[] [] [] [] [] [] [] []]; vm_compute; intros H;
    first [reflexivity | discriminate H].
Qed.

Lemma some_char_trim_keep (q : ascii -> bool) (s : string) :
  (forall c, is_digit c = true -> q c = true) ->
  some_char is_digit (trim (keep q s)) = some_char is_digit s.
Proof.
  intros H. rewrite !some_char_keep.
  rewrite (trim_keep is_digit _ digit_not_space).
  now rewrite keep_keep.
Qed.

Lemma some_char_trim (s : string) :
  some_char is_digit (trim s) = some_char is_digit s.
Proof.
  rewrite !some_char_keep. now rewrite (trim_keep is_digit _ digit_not_space).
Qed.

(** A match of the phone pattern has a digit. *)
Lemma phone_match_digit (m : string) :
  matches phone_re m -> some_char is_digit m = true.
Proof.
  unfold phone_re. cbn [Cat]. intros H.
  inversion H as [| | | r1 r2 m1 m2 H1 H2 | | | |]; subst; clear H.
  inversion H2 as [| | | r1 r2 m3 m4 H3 H4 | | | |]; subst; clear H2.
  unfold digit in H3. inversion H3; subst.
  rewrite some_char_app. cbn [String.append some_char].
  match goal with Hd : cls_match _ _ = true |- _ =>
    rewrite digit_match in Hd; rewrite Hd end.
  apply orb_true_r.
Qed.

(** A match of the reviews pattern has a digit. *)
Lemma reviews_match_digit (m : string) :
  matches reviews_re m -> some_char is_digit m = true.
Proof.
  unfold reviews_re. cbn [Cat]. intros H.
  inversion H as [| | | r1 r2 m1 m2 H1 H2 | | | |]; subst; clear H.
  inversion H2 as [| | | r1 r2 m3 m4 H3 H4 | | | |]; subst; clear H2.
  unfold digit in H3. inversion H3; subst. inversion H1; subst.
  cbn [String.append some_char].
  match goal with Hd : cls_match _ _ = true |- _ =>
    rewrite digit_match in Hd; rewrite Hd end.
  apply orb_true_r.
Qed.

Lemma test_digit (r : regex) (s : string) :
  (forall m, matches r m -> some_char is_digit m = true) ->
  test r s = true -> some_char is_digit s = true.
Proof.
  intros Hr H. apply test_sound in H.
  destruct H as [a [m [b [-> Hm]]]].
  rewrite !some_char_app, (Hr m Hm). apply orb_true_r.
Qed.

(** X7: the phone of a listing is made of digits, [+], parentheses,
    [-] and white space only, and neither begins nor ends with white
    space.  It is empty when no element holds a phone number; when one
    does, it is made from the first such element, those before it
    holding none: it is the whole text of that element, the characters
    outside the class removed and the result trimmed, so it holds every
    digit of that text, in order, and at least one. *)
Theorem X7_phone_shape (texts : list string) :
  all_chars phone_char (phone texts) = true /\
  space_first (phone texts) = false /\
  space_last (phone texts) = false /\
  ((forall t, In t texts -> test phone_re t = false) -> phone texts = "") /\
  (forall before t after,
     texts = before ++ t :: after ->
     (forall u, In u before -> test phone_re u = false) ->
     test phone_re t = true ->
     phone texts = trim (keep phone_char t) /\
     keep is_digit (phone texts) = keep is_digit t /\
     some_char is_digit (phone texts) = true) /\
  ((exists t, In t texts /\ test phone_re t = true) ->
     exists before t after,
       texts = before ++ t :: after /\
       (forall u, In u before -> test phone_re u = false) /\
       test phone_re t = true).
Proof.
  assert (Hshape : forall t, test phone_re t = true ->
            keep is_digit (trim (keep phone_char t)) = keep is_digit t /\
            some_char is_digit (trim (keep phone_char t)) = true).
  { intros t Ht. split.
    - rewrite (trim_keep is_digit _ digit_not_space).
      apply keep_keep. exact digit_is_phone_char.
    - rewrite (some_char_trim_keep _ _ digit_is_phone_char).
      apply (test_digit phone_re); [exact phone_match_digit | exact Ht]. }
  assert (Hfirst : forall before t after,
            texts = before ++ t :: after ->
            (forall u, In u before -> test phone_re u = false) ->
            test phone_re t = true ->
            phone texts = trim (keep phone_char t)).
  { intros before t after -> Hb Ht. unfold phone.
    now rewrite (find_first (test phone_re) before t after Hb Ht). }
  split; [| split; [| split; [| split; [| split]]]].
  - unfold phone. destruct (find (test phone_re) texts);
      [apply trim_all, keep_all | reflexivity].
  - unfold phone. destruct (find (test phone_re) texts);
      [apply trim_trimmed | reflexivity].
  - unfold phone. destruct (find (test phone_re) texts);
      [apply trim_trimmed | reflexivity].
  - intros H. unfold phone.
    destruct (find (test phone_re) texts) as [t |] eqn:E; [| reflexivity].
    apply find_some in E. destruct E as [Hin Ht].
    rewrite (H t Hin) in Ht. discriminate.
  - intros before t after Ht Hb Hm.
    rewrite (Hfirst before t after Ht Hb Hm).
    split; [reflexivity | now apply Hshape].
  - intros [t [Hin Ht]].
    destruct (find (test phone_re) texts) as [x |] eqn:E.
    + apply find_split in E. destruct E as [before [after [E [Hb Hx]]]].
      exists before, x, after. auto.
    + pose proof (find_none _ _ E t Hin) as Hn. congruence.
Qed.

(** The characters of a match of [r*] for a class [r]. *)
Lemma star_digits (r : regex) (m : string) :
  matches r m -> r = Star digit -> all_chars is_digit m = true.
Proof.
  intros H. induction H; intros E; try discriminate E.
  - reflexivity.
  - inversion E; subst. rewrite all_chars_app.
    rewrite IHmatches2 by reflexivity. rewrite andb_true_r.
    unfold digit in H. inversion H; subst. simpl.
    match goal with Hd : cls_match _ _ = true |- _ =>
      rewrite digit_match in Hd; now rewrite Hd end.
Qed.

Lemma plus_digits (m : string) :
  matches (Plus digit) m -> m <> "" /\ all_chars is_digit m = true.
Proof.
  unfold Plus. intros H.
  inversion H as [| | | r1 r2 m1 m2 H1 H2 | | | |]; subst; clear H.
  unfold digit in H1. inversion H1; subst. split; [discriminate |].
  cbn [String.append all_chars].
  match goal with Hd : cls_match _ _ = true |- _ =>
    rewrite digit_match in Hd; rewrite Hd end.
  simpl. eapply star_digits; eauto.
Qed.

(** A match of the rating pattern is a numeral: digits, then possibly
    a point and digits. *)
Lemma rating_match_shape (m : string) :
  matches rating_re m ->
  exists i f,
    m = (i ++ f)%string /\ i <> "" /\ all_chars is_digit i = true /\
    (f = "" \/
     exists d, f = ("." ++ d)%string /\ d <> "" /\
       all_chars is_digit d = true).
Proof.
  unfold rating_re. cbn [Cat]. intros H.
  inversion H as [| | | r1 r2 i m2 Hi H2 | | | |]; subst; clear H.
  inversion H2 as [| | | r1 r2 f m3 Hf H3 | | | |]; subst; clear H2.
  inversion H3; subst. rewrite append_empty_r.
  apply plus_digits in Hi. destruct Hi as [Hi1 Hi2].
  exists i, f. split; [reflexivity |]. split; [exact Hi1 |].
  split; [exact Hi2 |].
  inversion Hf as [| | | | r | r m Hb | |]; subst; clear Hf; [now left |].
  right.
  inversion Hb as [| | | r1 r2 p m4 Hp H4 | | | |]; subst; clear Hb.
  inversion H4 as [| | | r1 r2 d m5 Hd H5 | | | |]; subst; clear H4.
  inversion H5; subst. inversion Hp; subst.
  match goal with Hx : chr_match "." _ = true |- _ =>
    apply chr_match_inv in Hx; vm_compute in Hx;
    assert (x = "."%char) by tauto; subst end.
  apply plus_digits in Hd. destruct Hd as [Hd1 Hd2].
  exists d. rewrite append_empty_r. auto.
Qed.

(** X8: the rating of a listing is empty or a numeral, digits then
    possibly a point and digits, and then it is the trimmed text of a
    [span] whose [aria-hidden] is [true]. *)
Theorem X8_rating_shape (spans : list Span) :
  rating spans = "" \/
  (exists el, In el spans /\ ariaHidden el = Some "true" /\
     rating spans = trim (textContent el)) /\
  exists i f,
    rating spans = (i ++ f)%string /\ i <> "" /\
    all_chars is_digit i = true /\
    (f = "" \/
     exists d, f = ("." ++ d)%string /\ d <> "" /\
       all_chars is_digit d = true).
Proof.
  unfold rating.
  destruct (find _ spans) as [el |] eqn:E; [| now left].
  right. apply find_some in E. destruct E as [Hin Ht].
  apply andb_true_iff in Ht. destruct Ht as [Ha Hw].
  split.
  - exists el. split; [exact Hin |]. split; [| reflexivity].
    destruct (ariaHidden el) as [v |]; [| discriminate Ha].
    simpl in Ha. apply String.eqb_eq in Ha. now subst.
  - apply rating_match_shape, test_whole_sound, Hw.
Qed.

(** X9: the review count of a listing has no parenthesis and neither
    begins nor ends with white space.  It is empty when no [span]
    holds a count in parentheses; when one does, it is made from the
    first such [span], those before it holding none: it is the whole
    text of that [span], the parentheses removed and the result
    trimmed, and it holds a digit. *)
Theorem X9_reviews_shape (spans : list Span) :
  let counts el := test reviews_re (trim (textContent el)) in
  all_chars not_paren (reviews spans) = true /\
  space_first (reviews spans) = false /\
  space_last (reviews spans) = false /\
  ((forall el, In el spans -> counts el = false) ->
   reviews spans = "") /\
  (forall before el after,
     spans = before ++ el :: after ->
     (forall u, In u before -> counts u = false) ->
     counts el = true ->
     reviews spans = trim (keep not_paren (textContent el)) /\
     some_char is_digit (reviews spans) = true) /\
  ((exists el, In el spans /\ counts el = true) ->
   exists before el after,
     spans = before ++ el :: after /\
     (forall u, In u before -> counts u = false) /\
     counts el = true).
Proof.
  intros counts.
  assert (Hfind : reviews spans
                  = match find counts spans with
                    | Some reviewsEl =>
                        trim (keep not_paren (textContent reviewsEl))
                    | None => ""
                    end) by reflexivity.
  split; [| split; [| split; [| split; [| split]]]].
  - rewrite Hfind. destruct (find counts spans);
      [apply trim_all, keep_all | reflexivity].
  - rewrite Hfind. destruct (find counts spans);
      [apply trim_trimmed | reflexivity].
  - rewrite Hfind. destruct (find counts spans);
      [apply trim_trimmed | reflexivity].
  - intros H. rewrite Hfind.
    destruct (find counts spans) as [el |] eqn:E; [| reflexivity].
    apply find_some in E. destruct E as [Hin Ht].
    rewrite (H el Hin) in Ht. discriminate.
  - intros before el after -> Hb Hm. rewrite Hfind.
    rewrite (find_first counts before el after Hb Hm).
    split; [reflexivity |].
    rewrite (some_char_trim_keep _ _ digit_not_paren).
    rewrite <- some_char_trim.
    apply (test_digit reviews_re); [exact reviews_match_digit | exact Hm].
  - intros [el [Hin Ht]].
    destruct (find counts spans) as [x |] eqn:E.
    + apply find_split in E. destruct E as [before [after [E [Hb Hx]]]].
      exists before, x, after. auto.
    + pose proof (find_none _ _ E el Hin) as Hn. simpl in Hn. congruence.
Qed.

End FieldsFacts.

(* ================================================================== *)
(** * Further properties: the run over the listings *)
(* ================================================================== *)

Section RunFacts.
Import JS Miner Maps Rows.

Lemma process_listing_length (b : Business) (o : Steps) :
  (1 <= length (process_listing b o) <= 2)%nat /\
  (close o = true -> length (process_listing b o) = 1%nat).
Proof.
  unfold process_listing.
  destruct (newPage o && setRequestInterception o && goto o);
    [| simpl; split; [lia | reflexivity]].
  destruct (phone_found o), (website_found o), (rating_found o);
    try (simpl; split; [lia | reflexivity]).
  destruct (close o); simpl;
    (split; [lia | intros H; first [reflexivity | discriminate H]]).
Qed.

Lemma process_listing_record (b : Business) (o : Steps) (r : LeadRecord) :
  In r (process_listing b o) ->
  lead_name r = name b /\ maps_link r = link b /\
  (website r = "" ->
   lead_emails r = "" /\ lead_facebook r = "" /\ lead_instagram r = "").
Proof.
  unfold process_listing.
  destruct (newPage o && setRequestInterception o && goto o);
    [| intros [<- | []]; simpl; auto].
  destruct (phone_found o) as [ph |], (website_found o) as [ws |],
    (rating_found o) as [rr |];
    try (intros [<- | []]; simpl; auto).
  assert (Hfull : forall r0,
            r0 = full_record b ph ws rr (contact_info ws o) ->
            lead_name r0 = name b /\ maps_link r0 = link b /\
            (website r0 = "" ->
             lead_emails r0 = "" /\ lead_facebook r0 = "" /\
             lead_instagram r0 = "")).
  { intros r0 ->. cbn [full_record lead_name maps_link website lead_emails
                         lead_facebook lead_instagram].
    split; [reflexivity |]. split; [reflexivity |].
    intros ->. simpl. auto. }
  destruct (close o).
  - intros [<- | []]. now apply Hfull.
  - intros [<- | [<- | []]]; [now apply Hfull | simpl; auto].
Qed.

Lemma process_from_facts (bound : number) (steps : nat -> Steps)
    (bs : list Business) :
  forall i,
    let rows := process_from bound steps i bs in
    let reached := processed_from bound i bs in
    (length reached <= length rows <= 2 * length reached)%nat /\
    (forall r, In r rows ->
       (exists b, In b reached /\ key_of_record r = key_of_stub b) /\
       (website r = "" ->
        lead_emails r = "" /\ lead_facebook r = "" /\
        lead_instagram r = "")) /\
    ((forall k, close (steps k) = true) ->
     map key_of_record rows = map key_of_stub reached).
Proof.
  induction bs as [| b rest IH]; intros i; simpl.
  - split; [lia |]. split; [intros r [] | reflexivity].
  - destruct (lt_num (Z.of_nat i) bound).
    + specialize (IH (S i)). simpl in IH. destruct IH as [I1 [I2 I3]].
      pose proof (process_listing_length b (steps i)) as [L1 L2].
      split; [| split].
      * rewrite length_app. simpl. lia.
      * intros r Hr. apply in_app_or in Hr. destruct Hr as [Hr | Hr].
        -- apply process_listing_record in Hr.
           destruct Hr as [Hn [Hl Hw]]. split; [| exact Hw].
           exists b. split; [now left |].
           unfold key_of_record, key_of_stub. now rewrite Hn, Hl.
        -- destruct (I2 r Hr) as [[b' [Hb Hk]] Hw]. split; [| exact Hw].
           exists b'. split; [now right | exact Hk].
      * intros Hc. rewrite map_app, (I3 Hc). simpl.
        specialize (L2 (Hc i)).
        destruct (process_listing b (steps i)) as [| r [| r' l]] eqn:E;
          try discriminate L2.
        assert (Hr : In r (process_listing b (steps i)))
          by (rewrite E; now left).
        apply process_listing_record in Hr. destruct Hr as [Hn [Hl _]].
        simpl. unfold key_of_record, key_of_stub. now rewrite Hn, Hl.
    + simpl. split; [lia |]. split; [intros r [] | reflexivity].
Qed.

(** The rows of the stubs reached, stub by stub: the rows are those of
    the first stub, then those of the second, and so on; each stub has
    one row or two, which carry its name and its link, and each has
    one row when every page closes. *)
Lemma process_from_groups (bound : number) (steps : nat -> Steps)
    (bs : list Business) :
  forall i,
    exists groups,
      process_from bound steps i bs = concat groups /\
      Forall2 (fun b g =>
                 (1 <= length g <= 2)%nat /\
                 forall r, In r g -> key_of_record r = key_of_stub b)
              (processed_from bound i bs) groups /\
      ((forall k, close (steps k) = true) ->
       Forall (fun g => length g = 1%nat) groups).
Proof.
  induction bs as [| b rest IH]; intros i; simpl.
  - exists []. split; [reflexivity |]. split; constructor.
  - destruct (lt_num (Z.of_nat i) bound).
    + destruct (IH (S i)) as [groups [E [HF Hc]]].
      exists (process_listing b (steps i) :: groups).
      split; [simpl; now rewrite E |]. split.
      * constructor; [| exact HF]. split.
        -- apply process_listing_length.
        -- intros r Hr. apply process_listing_record in Hr.
           destruct Hr as [Hn [Hl _]].
           unfold key_of_record, key_of_stub. now rewrite Hn, Hl.
      * intros Hall. constructor; [| now apply Hc].
        apply process_listing_length, Hall.
    + exists []. split; [reflexivity |]. split; constructor.
Qed.

(** X10: the rows of a run follow the stubs reached, stub by stub: the
    rows are those of the first stub reached, then those of the
    second, and so on; each stub reached has one row or two, carrying
    its name and its link; when every listing page closes each stub
    has one row, so that the rows are one for each stub, in the order
    of the stubs.  A row without a website has no email, facebook or
    instagram. *)
Theorem X10_rows_follow_stubs (targetCount : number)
    (steps : nat -> Steps) (bs : list Business) :
  let rows := process_from (loop_bound bs targetCount) steps 0 bs in
  let reached := processed bs targetCount in
  (exists groups,
     rows = concat groups /\
     Forall2 (fun b g =>
                (1 <= length g <= 2)%nat /\
                forall r, In r g -> key_of_record r = key_of_stub b)
             reached groups /\
     ((forall k, close (steps k) = true) ->
      Forall (fun g => length g = 1%nat) groups)) /\
  (length reached <= length rows <= 2 * length reached)%nat /\
  (forall r, In r rows ->
     (exists b, In b reached /\ key_of_record r = key_of_stub b) /\
     (website r = "" ->
      lead_emails r = "" /\ lead_facebook r = "" /\
      lead_instagram r = "")) /\
  ((forall k, close (steps k) = true) ->
   map key_of_record rows = map key_of_stub reached) /\
  (forall page,
     Maps.steps page = steps -> anchors page = Some bs ->
     forall result, scrapeGoogleMaps targetCount page = Some result ->
       result = rows).
Proof.
  intros rows reached.
  destruct (process_from_facts (loop_bound bs targetCount) steps bs 0)
    as [H1 [H2 H3]].
  split; [exact (process_from_groups _ steps bs 0) |].
  split; [exact H1 |]. split; [exact H2 |]. split; [exact H3 |].
  intros page Hs Ha result. unfold scrapeGoogleMaps.
  destruct (launched page && opened page); [| discriminate].
  rewrite Ha, Hs.
  destruct (stop (scroll targetCount (feed page))); try discriminate;
    destruct (closed page); try discriminate;
    intros E; inversion E; reflexivity.
Qed.

Lemma scroll_from_never_reached (feed : nat -> observation) (left : nat) :
  forall i last noNew,
    stop (scroll_from NaN feed left i last noNew) <> TargetReached.
Proof.
  induction left as [| left IH]; intros i last noNew;
    [simpl; discriminate |].
  rewrite scroll_from_step. destruct (feed i) as [| c |];
    [simpl; discriminate | | simpl; discriminate].
  cbn [ge_num]. destruct (Nat.eqb c last).
  - destruct (2 <=? S noNew)%nat; [simpl; discriminate |].
    simpl. apply IH.
  - apply IH.
Qed.

(** X11: a target that is [NaN], as [parseInt] gives for a count
    that is no numeral, gives a scroll loop that never reaches its
    target and a run that processes no listing; a target of 0 or less
    stops the loop in its first round and processes no listing
    either. *)
Theorem X11_degenerate_targets (page : MapsPage) (bs : list Business) :
  stop (scroll NaN (feed page)) <> TargetReached /\
  processed bs NaN = [] /\
  (forall rows, scrapeGoogleMaps NaN page = Some rows -> rows = []) /\
  (forall t, (t <= 0)%Z ->
     (rounds (scroll (Num t) (feed page)) <= 1)%nat /\
     graces (scroll (Num t) (feed page)) = [] /\
     processed bs (Num t) = [] /\
     forall rows, scrapeGoogleMaps (Num t) page = Some rows -> rows = []).
Proof.
  assert (Hp : forall l t, (t <= 0)%Z -> processed l (Num t) = []).
  { intros l t Ht. rewrite processed_prefix. unfold loop_bound. simpl.
    replace (Z.to_nat (Z.min (Z.of_nat (length l)) t)) with 0%nat by lia.
    reflexivity. }
  assert (Hn : forall l, processed l NaN = []).
  { intros l. rewrite processed_prefix. reflexivity. }
  assert (Hrows : forall target,
            (forall l, processed l target = []) ->
            forall rows, scrapeGoogleMaps target page = Some rows ->
              rows = []).
  { intros target Hz rows. unfold scrapeGoogleMaps.
    destruct (launched page && opened page); [| discriminate].
    destruct (anchors page) as [l |];
      [| destruct (stop _); discriminate].
    rewrite process_from_rows. fold (processed l target). rewrite Hz.
    destruct (stop _); try discriminate;
      destruct (closed page); try discriminate;
      intros E; inversion E; reflexivity. }
  split; [apply scroll_from_never_reached |].
  split; [apply Hn |]. split; [apply Hrows, Hn |].
  intros t Ht.
  assert (Hs : (rounds (scroll (Num t) (feed page)) <= 1)%nat /\
               graces (scroll (Num t) (feed page)) = []).
  { unfold scroll, MAX_SCROLLS. rewrite scroll_from_step.
    destruct (feed page 0%nat) as [| c |]; simpl; auto.
    replace (t <=? Z.of_nat c)%Z with true by (symmetry; apply Z.leb_le; lia).
    simpl. auto. }
  destruct Hs as [Hs1 Hs2].
  split; [exact Hs1 |]. split; [exact Hs2 |]. split; [now apply Hp |].
  apply Hrows. intros l. now apply Hp.
Qed.

Lemma scroll_from_growing (targetCount : number) (feed : nat -> observation)
    (left : nat) :
  forall i,
    (forall k, (i <= k < i + left)%nat ->
       exists c, feed k = Loaded c /\
         ge_num (Z.of_nat c) targetCount = false /\
         c <> prev_count feed k) ->
    scroll_from targetCount feed left i (prev_count feed i) 0
    = mkScroll (i + left) [] RoundCap.
Proof.
  induction left as [| left IH]; intros i H.
  - simpl. now rewrite Nat.add_0_r.
  - rewrite scroll_from_step.
    destruct (H i) as [c [Hf [Hg Hc]]]; [lia |].
    rewrite Hf, Hg.
    apply Nat.eqb_neq in Hc. rewrite Hc.
    replace c with (prev_count feed (S i)) by (simpl; now rewrite Hf).
    rewrite IH.
    + f_equal. lia.
    + intros k Hk. apply H. lia.
Qed.

(** X12: on a feed whose count changes at every round without reaching
    the target, the loop runs its 20 rounds without a grace period,
    stops on the cap of the rounds, and has waited 20 times the delay
    of a round. *)
Theorem X12_growing_feed_hits_cap (targetCount : number)
    (feed : nat -> observation) :
  (forall k, (k < 20)%nat ->
     exists c, feed k = Loaded c /\
       ge_num (Z.of_nat c) targetCount = false /\
       c <> prev_count feed k) ->
  scroll targetCount feed = mkScroll 20 [] RoundCap /\
  waited targetCount (scroll targetCount feed)
    = (20 * round_delay targetCount)%Z.
Proof.
  intros H.
  assert (E : scroll targetCount feed = mkScroll 20 [] RoundCap).
  { unfold scroll, MAX_SCROLLS.
    apply (scroll_from_growing targetCount feed 20 0).
    intros k Hk. apply H. lia. }
  rewrite E. split; [reflexivity |]. unfold waited. simpl. lia.
Qed.

Lemma X12_witness :
  scroll (Num 100) (fun i => Loaded (S i)) = mkScroll 20 [] RoundCap /\
  waited (Num 100) (scroll (Num 100) (fun i => Loaded (S i))) = 300000%Z.
Proof.
  apply (X12_growing_feed_hits_cap (Num 100) (fun i => Loaded (S i))).
  intros k Hk. exists (S k). split; [reflexivity |]. split.
  - simpl. apply Z.leb_gt. lia.
  - destruct k; simpl; lia.
Defined.

End RunFacts.

(* ================================================================== *)
(** * Further properties: exports and the endpoints that read them *)
(* ================================================================== *)

Section FilesFacts.
Import JS Maps Job Files.

Lemma insert_recent_perm (x : FileStat) (l : list FileStat) :
  Permutation (insert_recent x l) (x :: l).
Proof.
  induction l as [| y l IH]; simpl; [apply Permutation_refl |].
  destruct (birthtime y <=? birthtime x)%Z; [apply Permutation_refl |].
  eapply Permutation_trans; [apply perm_skip, IH | apply perm_swap].
Qed.

Lemma sort_recent_perm (l : list FileStat) :
  Permutation (sort_recent l) l.
Proof.
  induction l as [| x l IH]; simpl; [apply perm_nil |].
  eapply Permutation_trans; [apply insert_recent_perm |].
  now apply perm_skip.
Qed.

Lemma insert_recent_sorted (x : FileStat) (l : list FileStat) :
  recent_first l -> recent_first (insert_recent x l).
Proof.
  unfold recent_first. intros H. induction H as [| y l Hl IH Hy]; simpl.
  - constructor; constructor.
  - destruct (birthtime y <=? birthtime x)%Z eqn:E.
    + apply Z.leb_le in E. constructor; [now constructor |].
      constructor; [exact E |].
      eapply Forall_impl; [| exact Hy]. intros a Ha. simpl in Ha. lia.
    + apply Z.leb_gt in E. constructor; [exact IH |].
      eapply Permutation_Forall;
        [apply Permutation_sym, insert_recent_perm |].
      constructor; [lia | exact Hy].
Qed.

Lemma sort_recent_sorted (l : list FileStat) : recent_first (sort_recent l).
Proof.
  induction l as [| x l IH]; simpl; [constructor |].
  now apply insert_recent_sorted.
Qed.

(** The file the sort puts first is none older than any file. *)
Lemma sort_recent_head (l : list FileStat) (f : FileStat)
    (rest : list FileStat) :
  sort_recent l = f :: rest ->
  In f l /\ forall g, In g l -> (birthtime g <= birthtime f)%Z.
Proof.
  intros E. pose proof (sort_recent_perm l) as Hp.
  pose proof (sort_recent_sorted l) as Hs. rewrite E in Hp, Hs.
  split.
  - eapply Permutation_in; [exact Hp | now left].
  - intros g Hg. apply Permutation_sym in Hp.
    apply (Permutation_in _ Hp) in Hg. destruct Hg as [<- | Hg]; [lia |].
    inversion Hs as [| a l' Hl Hf]; subst.
    rewrite Forall_forall in Hf. now apply Hf.
Qed.

Lemma endsWith_app (a b : string) : endsWith (a ++ b) b = true.
Proof.
  induction a as [| c a IH]; simpl.
  - destruct b; simpl; [reflexivity |].
    rewrite Ascii.eqb_refl, String.eqb_refl. reflexivity.
  - rewrite IH. apply orb_true_r.
Qed.

Lemma endsWith_app_r (a b s : string) :
  endsWith b s = true -> endsWith (a ++ b) s = true.
Proof.
  intros H. induction a as [| c a IH]; simpl; [exact H |].
  rewrite IH. apply orb_true_r.
Qed.

(** X13: the listing of the exports holds exactly the files of the
    directory whose name ends in [.xlsx], each once for each time it is
    in the directory, the most recent first. *)
Theorem X13_list_files_sorted (files : list FileStat) :
  exists l,
    list_files (Some files) = Some l /\
    Permutation l (filter is_xlsx files) /\
    recent_first l /\
    (forall f, In f l <-> In f files /\ is_xlsx f = true) /\
    (length l <= length files)%nat.
Proof.
  exists (sort_recent (filter is_xlsx files)).
  pose proof (sort_recent_perm (filter is_xlsx files)) as Hp.
  split; [reflexivity |]. split; [exact Hp |].
  split; [apply sort_recent_sorted |]. split.
  - intros f. rewrite <- filter_In. split; intros H.
    + eapply Permutation_in; eauto.
    + eapply Permutation_in; [apply Permutation_sym|]; eauto.
  - rewrite (Permutation_length Hp). apply filter_length_le.
Qed.

Section Poll.

Variable proc_name : Z -> string.

Lemma get_results_cases (now : Z) (st : ProcessingState)
    (dir : option (list FileStat)) (pid : string) :
  (isProcessing st = true /\
   (exists t, processId st = Some t /\ proc_name t = pid) /\
   get_results proc_name now st dir pid
   = Processing (currentQuery st) (currentCount st)
       (elapsed_since now (startTime st))) \/
  ((isProcessing st = false \/
    forall t, processId st = Some t -> proc_name t <> pid) /\
   get_results proc_name now st dir pid = from_directory dir).
Proof.
  unfold get_results.
  destruct (isProcessing st) eqn:Ep; simpl.
  - destruct (processId st) as [t |] eqn:Et.
    + destruct (String.eqb (proc_name t) pid) eqn:Ee.
      * left. apply String.eqb_eq in Ee. split; [reflexivity |].
        split; [eauto | reflexivity].
      * right. apply String.eqb_neq in Ee. split; [| reflexivity].
        right. intros t' E. inversion E; subst. exact Ee.
    + right. split; [| reflexivity]. right. intros t' E. discriminate E.
  - right. split; [now left | reflexivity].
Qed.

(** X14: the poll answers [processing] only to the id of the run in
    progress.  To any other id, issued or not, and to every id when no
    run is in progress, it answers from the directory alone: an error
    when the directory cannot be read, no file when it has no [.xlsx]
    file, and otherwise [completed] with an [.xlsx] file of the
    directory that none is more recent than. *)
Theorem X14_poll_answers (now : Z) (st : ProcessingState)
    (dir : option (list FileStat)) (pid : string) :
  ((exists q n e,
      get_results proc_name now st dir pid = Processing q n e) ->
   isProcessing st = true /\
   exists t, processId st = Some t /\ proc_name t = pid) /\
  ((isProcessing st = false \/
    forall t, processId st = Some t -> proc_name t <> pid) ->
   get_results proc_name now st dir pid = from_directory dir) /\
  (from_directory None = PollError) /\
  (forall files,
     match from_directory (Some files) with
     | Completed f =>
         In f files /\ is_xlsx f = true /\
         forall g, In g files -> is_xlsx g = true ->
           (birthtime g <= birthtime f)%Z
     | NoFiles => forall g, In g files -> is_xlsx g = false
     | _ => False
     end).
Proof.
  split; [| split; [| split]].
  - intros [q [n [e E]]].
    destruct (get_results_cases now st dir pid) as [[Hp [Ht _]] | [_ H]];
      [auto |].
    rewrite H in E. unfold from_directory in E.
    destruct dir as [files |]; [| discriminate].
    destruct (sort_recent _); discriminate.
  - intros H.
    destruct (get_results_cases now st dir pid) as [[Hp [[t [Ht He]] _]] | [_ E]];
      [| exact E].
    destruct H as [H | H]; [congruence |].
    exfalso. exact (H t Ht He).
  - reflexivity.
  - intros files. unfold from_directory.
    destruct (sort_recent (filter is_xlsx files)) as [| f rest] eqn:E.
    + intros g Hg. destruct (is_xlsx g) eqn:Ex; [| reflexivity].
      assert (Hin : In g (filter is_xlsx files)) by (apply filter_In; auto).
      pose proof (sort_recent_perm (filter is_xlsx files)) as Hp.
      rewrite E in Hp. apply Permutation_sym in Hp.
      apply (Permutation_in _ Hp) in Hin. destruct Hin.
    + apply sort_recent_head in E. destruct E as [Hin Hmax].
      apply filter_In in Hin. destruct Hin as [Hin Hx].
      split; [exact Hin |]. split; [exact Hx |].
      intros g Hg Hgx. apply Hmax. apply filter_In. auto.
Qed.

Variable parseInt : jsval -> number.


(** X16: when a pipeline has ended, with a result or with a failure,
    the state is the idle one, the status shows no run and no time
    elapsed, and the poll answers every id from the directory alone:
    after a run that failed and wrote nothing it still answers
    [completed] with the most recent export there is. *)
Theorem X16_after_the_run (run : Run) (e : Ending)
    (st : ProcessingState) (now : Z) (dir : option (list FileStat))
    (pid : string) :
  let st' := fst (pipeline_done run e st) in
  get_status now st' = mkStatus false (JStr "") (Num 0) None None 0 /\
  get_results proc_name now st' dir pid = from_directory dir /\
  (scraped e = None -> snd (pipeline_done run e st) = None).
Proof.
  intros st'. unfold st'. rewrite pipeline_done_idle.
  split; [reflexivity |]. split; [reflexivity |].
  intros H. unfold pipeline_done. now rewrite H.
Qed.

End Poll.


End FilesFacts.

Section ServerFacts.
Import JS Maps Job Files.

Variable parseInt : jsval -> number.




Lemma remove_nth_length (k : nat) (l : list Run) (run : Run) :
  nth_error l k = Some run -> S (length (remove_nth k l)) = length l.
Proof.
  revert k. induction l as [| x l IH]; intros k H.
  - destruct k; discriminate H.
  - destruct k as [| k]; simpl; [reflexivity |].
    simpl in H. now rewrite (IH k H).
Qed.

Lemma step_exports (sv : Server) (ev : Event) :
  let sv' := fst (step parseInt sv ev) in
  let r := snd (step parseInt sv ev) in
  (length (exports sv') + length (in_flight sv')
   <= length (exports sv) + length (in_flight sv)
      + accepted (match r with Some x => [x] | None => [] end))%nat.
Proof.
  destruct ev as [now stamp body | k e]; simpl.
  - unfold post_scrape.
    destruct (negb (truthy (query body)) || negb (truthy (count body)));
      simpl; [lia |].
    destruct (isProcessing (state sv)); simpl; [lia |].
    rewrite length_app. simpl. lia.
  - destruct (nth_error (in_flight sv) k) as [run |] eqn:En; simpl; [| lia].
    apply remove_nth_length in En.
    destruct (pipeline_done run e (state sv)) as [st' out]. simpl.
    destruct out; simpl; [rewrite length_app; simpl |]; lia.
Qed.

Lemma accepted_cons (r : option Response) (rs : list Response) :
  accepted (match r with Some x => x :: rs | None => rs end)
  = (accepted (match r with Some x => [x] | None => [] end)
     + accepted rs)%nat.
Proof.
  destruct r as [[| |] |]; reflexivity.
Qed.

Lemma run_events_exports (evs : list Event) :
  forall sv,
    (length (exports (fst (run_events parseInt sv evs)))
     + length (in_flight (fst (run_events parseInt sv evs)))
     <= length (exports sv) + length (in_flight sv)
        + accepted (snd (run_events parseInt sv evs)))%nat.
Proof.
  induction evs as [| ev evs IH]; intros sv; simpl; [lia |].
  pose proof (step_exports sv ev) as H1. simpl in H1.
  destruct (step parseInt sv ev) as [sv1 r]. simpl in H1.
  specialize (IH sv1).
  destruct (run_events parseInt sv1 evs) as [sv2 rs]. simpl in *.
  rewrite accepted_cons. lia.
Qed.

(** X18: whatever the requests and the endings of the pipelines, the
    exports written and the pipelines in flight are together no more
    than the requests accepted: an export is written only by a run
    that a request started, and once at most. *)
Theorem X18_exports_bounded_by_accepted (evs : list Event) :
  (length (exports (fst (run_events parseInt boot evs)))
   + length (in_flight (fst (run_events parseInt boot evs)))
   <= accepted (snd (run_events parseInt boot evs)))%nat.
Proof.
  pose proof (run_events_exports evs boot) as H. simpl in H. exact H.
Qed.


End ServerFacts.

Section ServerWitnesses.
Import Maps Job Files.



End ServerWitnesses.

Section DiskFacts.
Import JS Files Fields.

Variable join : string -> string.

Lemma existsSync_filter (d : disk) (p q : string) :
  existsSync (filter (fun x => negb (String.eqb x q)) d) p
  = existsSync d p && negb (String.eqb p q).
Proof.
  unfold existsSync. induction d as [| x d IH]; simpl; [reflexivity |].
  destruct (String.eqb x q) eqn:Exq; simpl.
  - rewrite IH. destruct (String.eqb p x) eqn:Epx; simpl; [| reflexivity].
    apply String.eqb_eq in Epx. apply String.eqb_eq in Exq. subst.
    rewrite String.eqb_refl. simpl. now rewrite andb_false_r.
  - rewrite IH. destruct (String.eqb p x) eqn:Epx; simpl; [| reflexivity].
    apply String.eqb_eq in Epx. subst. now rewrite Exq.
Qed.

(** X20: a deletion answers 404 exactly when the handler of a download
    of the same name answers its own 404, the path not being there,
    and otherwise that handler hands the path and the name to
    [res.download], whose answer is the library's.  A deletion that
    answers 404, as one whose removal fails, leaves the disk as it is.
    A deletion that succeeds removes the path of the name and no
    other: the handler of a download and a second deletion of a name
    with that path answer 404, and every other path exists as
    before. *)
Theorem X20_delete_then_download (unlinks : bool) (d : disk)
    (name : string) :
  let resp := fst (delete_file join unlinks d name) in
  let d' := snd (delete_file join unlinks d name) in
  (resp = NotFound <-> download join d name = Missing) /\
  (resp <> NotFound -> download join d name = Handed (join name) name) /\
  (resp <> Deleted -> d' = d) /\
  (resp = Deleted ->
     unlinks = true /\
     (forall name', join name' = join name ->
        download join d' name' = Missing /\
        delete_file join unlinks d' name' = (NotFound, d')) /\
     (forall p, p <> join name -> existsSync d' p = existsSync d p)).
Proof.
  unfold delete_file, download.
  destruct (existsSync d (join name)) eqn:E.
  - destruct unlinks; simpl.
    + split; [split; discriminate |]. split; [reflexivity |].
      split; [congruence |].
      intros _. split; [reflexivity |]. split.
      * intros name' Hn. rewrite Hn, existsSync_filter, String.eqb_refl.
        rewrite andb_false_r. split; reflexivity.
      * intros p Hp. rewrite existsSync_filter.
        apply String.eqb_neq in Hp. rewrite Hp. apply andb_true_r.
    + split; [split; discriminate |]. split; [reflexivity |].
      split; [reflexivity | discriminate].
  - simpl. split; [tauto |]. split; [congruence |].
    split; [reflexivity | discriminate].
Qed.

(** X21: the part of the file name of an export that comes from the
    query has the length of the query and is made of letters, digits
    and [_] alone, a query made of letters and digits being kept as it
    is; the date part has no [:], [.] or [T]; and the name begins with
    [leads_] and ends in [.xlsx], so a file of that name in the
    directory is in the listing of the exports. *)
Theorem X21_export_file_name (query iso now : string) :
  String.length (sanitize query) = String.length query /\
  all_chars safe_char (sanitize query) = true /\
  (all_chars is_alnum query = true -> sanitize query = query) /\
  all_chars (fun c => negb (Ascii.eqb c ":" || Ascii.eqb c "." ||
                            Ascii.eqb c "T")) (timestamp iso) = true /\
  startsWith (filename query iso now) "leads_" = true /\
  endsWith (filename query iso now) ".xlsx" = true /\
  (forall created size files,
     In (mkFile (filename query iso now) created size) files ->
     exists l, list_files (Some files) = Some l /\
       In (mkFile (filename query iso now) created size) l).
Proof.
  assert (Hend : endsWith (filename query iso now) ".xlsx" = true).
  { unfold filename. do 5 apply endsWith_app_r. apply endsWith_app. }
  split; [| split; [| split; [| split; [| split; [| split]]]]].
  - clear Hend. unfold sanitize.
    induction query as [| c q IH]; simpl; [reflexivity |].
    now rewrite IH.
  - clear Hend. unfold sanitize, safe_char.
    induction query as [| c q IH]; simpl; [reflexivity |].
    rewrite IH. destruct (is_alnum c) eqn:E; simpl; [now rewrite E |].
    reflexivity.
  - clear Hend. unfold sanitize.
    induction query as [| c q IH]; simpl; [reflexivity |].
    intros H. apply andb_true_iff in H. destruct H as [Hc Hq].
    now rewrite Hc, IH.
  - clear Hend. unfold timestamp.
    induction iso as [| c s IH]; simpl; [reflexivity |].
    destruct (Ascii.eqb c ":" || Ascii.eqb c ".") eqn:E; simpl.
    + exact IH.
    + destruct (Ascii.eqb c "T") eqn:ET; simpl; [reflexivity |].
      rewrite E, ET. simpl. exact IH.
  - unfold filename, startsWith.
    cbn [String.append String.prefix]. repeat rewrite Ascii.eqb_refl.
    first [reflexivity | destruct (_ ++ _)%string; reflexivity].
  - exact Hend.
  - intros created size files Hin.
    exists (sort_recent (filter is_xlsx files)). split; [reflexivity |].
    eapply Permutation_in; [apply Permutation_sym, sort_recent_perm |].
    apply filter_In. split; [exact Hin | exact Hend].
Qed.

End DiskFacts.
